(** * go-bot: a Twitch chat bot (bot.go)

    A shallow embedding of [bot.go] and the properties of its line
    classifier, its rate-limited sender, its moderator check and its
    moderation commands.

    Layout of the file:
    - [GoStrings]: the functions of Go's [strings] package that the bot calls;
    - the [Bot] struct, the [World] around it (clock, standard output) and
      the [outcome] of running a piece of the program;
    - the bot's methods and [main], in the order of the source;
    - [Goroutines]: several calls of [Message] in flight, statement by
      statement;
    - the notions that the statements use;
    - the properties: the sender, the moderator check, the commands, the
      loop of [main].

    Time is counted in whole seconds, as [time.Now().Unix()] reports it, and
    passes only where the program sleeps or a schedule says so. *)

From Stdlib Require Import ZArith Ascii String List Bool Lia.
From stdpp Require Import base option list strings gmap.

Local Open Scope Z_scope.
Local Open Scope string_scope.
Local Open Scope list_scope.

(** ** Go's [strings] package, on byte strings *)

Module GoStrings.

(** [s[n:]], for [n <= len(s)]. *)
Fixpoint drop (n : nat) (s : string) : string :=
  match n, s with
  | O, _ => s
  | S _, EmptyString => EmptyString
  | S k, String _ s' => drop k s'
  end.

(** [strings.HasPrefix(s, prefix)]. *)
Definition HasPrefix (s pre : string) : bool := String.prefix pre s.

(** [strings.Contains(s, substr)]: [substr] starts at some offset of [s]. *)
Fixpoint Contains (s substr : string) : bool :=
  HasPrefix s substr ||
  match s with
  | EmptyString => false
  | String _ s' => Contains s' substr
  end.

(** The scan of [strings.Split] for a separator that is not empty: [cur] is
    the piece being read, [skip] counts the bytes of a separator that was
    just matched and is still to be stepped over. *)
Fixpoint split_scan (sep s : string) (skip : nat) (cur : string) : list string :=
  match s with
  | EmptyString => [cur]
  | String c s' =>
      match skip with
      | S k => split_scan sep s' k cur
      | O =>
          if HasPrefix s sep
          then cur :: split_scan sep s' (String.length sep - 1) EmptyString
          else split_scan sep s' 0 (cur +:+ String c EmptyString)
      end
  end.

(** The pieces of [s] for the empty separator, one per byte. (Go cuts after
    each UTF-8 sequence; the bot never splits on the empty string.) *)
Fixpoint explode (s : string) : list string :=
  match s with
  | EmptyString => []
  | String c s' => String c EmptyString :: explode s'
  end.

(** [strings.Split(s, sep)]: the pieces of [s] between the occurrences of
    [sep], found left to right without overlap; never empty when [sep] is
    not. *)
Definition Split (s sep : string) : list string :=
  match sep with
  | EmptyString => explode s
  | _ => split_scan sep s 0 EmptyString
  end.

(** [strings.Replace(s, old, new, 1)]: the first occurrence of [old]
    replaced. *)
Fixpoint Replace1 (s old new : string) : string :=
  if HasPrefix s old then new +:+ drop (String.length old) s
  else match s with
       | EmptyString => EmptyString
       | String c s' => String c (Replace1 s' old new)
       end.

(** [strings.HasSuffix(s, suffix)]. *)
Fixpoint HasSuffix (s suffix : string) : bool :=
  String.eqb s suffix ||
  match s with
  | EmptyString => false
  | String _ s' => HasSuffix s' suffix
  end.

(** Lower case of one byte: ['A'..'Z'] to ['a'..'z'], the rest unchanged. *)
Definition lower_byte (c : ascii) : ascii :=
  let n := N_of_ascii c in
  if ((65 <=? n) && (n <=? 90))%N then ascii_of_N (n + 32) else c.

(** [strings.ToLower(s)] on ASCII text. Go maps Unicode runes; on a string
    of bytes below 128, which the command keywords are, that is this
    bytewise map. *)
Fixpoint ToLower (s : string) : string :=
  match s with
  | EmptyString => EmptyString
  | String c s' => String (lower_byte c) (ToLower s')
  end.

End GoStrings.

Import GoStrings.

(** ** The bot and the world around it *)

(** Go's escapes ["\n"] and ["\r\n"]: the line feed, and the carriage
    return followed by it. *)
Definition LF : string := String (ascii_of_nat 10) EmptyString.
Definition CRLF : string := String (ascii_of_nat 13) LF.

(** 64-bit signed arithmetic ([int64], and [int] on a 64-bit target). *)
Definition wrap64 (z : Z) : Z := (z + 2 ^ 63) mod 2 ^ 64 - 2 ^ 63.
Definition add64 (a b : Z) : Z := wrap64 (a + b).
Definition mul64 (a b : Z) : Z := wrap64 (a * b).

(** One call that puts bytes on the connection: [conn.Write(bytes)] sends
    [bytes] as they are; [fmt.Fprintf(conn, format)] is called with a format
    and no operands, and sends the format itself when it holds no ['%']. *)
Inductive write : Type :=
  | Write (bytes : string)
  | Fprintf (format : string).

(** The text that goes out, for a format without verbs. *)
Definition payload (x : write) : string :=
  match x with Write s => s | Fprintf s => s end.

(** [type Bot struct]. The connection is modelled by the calls made on it,
    oldest first, each with the Unix second at which it was made. *)
Record Bot : Type := mkBot {
  server : string;
  port : string;
  nickname : string;
  channel : string;
  automsg : string;
  autoMsgCount : Z;
  conn : list (Z * write);
  mods : gmap string bool;
  userLastMsg : gmap string Z;
  lastMsg : Z;
  maxMsgTime : Z;
  userMaxLastMsg : Z
}.

(** What the program runs in: the bot, [time.Now().Unix()], and the formats
    handed to [fmt.Printf] so far. *)
Record World : Type := mkWorld {
  bot : Bot;
  now : Z;
  stdout : list string
}.

(** How a piece of the program ends: it returns, the Go runtime panics
    (index out of range), it calls [os.Exit], or the model ran out of fuel. *)
Inductive outcome (A : Type) : Type :=
  | Ok (a : A)
  | Panic
  | Exit (w : World)
  | Spin.
Arguments Ok {A} a.
Arguments Panic {A}.
Arguments Exit {A} w.
Arguments Spin {A}.

#[global] Instance outcome_ret : MRet outcome := fun _ a => Ok a.
#[global] Instance outcome_bind : MBind outcome := fun _ _ f m =>
  match m with
  | Ok a => f a
  | Panic => Panic
  | Exit w => Exit w
  | Spin => Spin
  end.

(** [l[i]], with Go's bounds check. *)
Definition index (l : list string) (i : nat) : outcome string :=
  match l !! i with
  | Some x => Ok x
  | None => Panic
  end.

(** The bot with one field assigned. *)
Definition with_conn (c : list (Z * write)) (b : Bot) : Bot :=
  mkBot (server b) (port b) (nickname b) (channel b) (automsg b)
        (autoMsgCount b) c (mods b) (userLastMsg b) (lastMsg b)
        (maxMsgTime b) (userMaxLastMsg b).

Definition with_lastMsg (t : Z) (b : Bot) : Bot :=
  mkBot (server b) (port b) (nickname b) (channel b) (automsg b)
        (autoMsgCount b) (conn b) (mods b) (userLastMsg b) t
        (maxMsgTime b) (userMaxLastMsg b).

(** [fmt.Printf(format)]. *)
Definition Printf (format : string) (w : World) : World :=
  mkWorld (bot w) (now w) (stdout w ++ [format]).

(** A call on [bot.conn], logged at the current second. *)
Definition send (x : write) (w : World) : World :=
  mkWorld (with_conn (conn (bot w) ++ [(now w, x)]) (bot w)) (now w) (stdout w).

(** [bot.lastMsg = time.Now().Unix()]. *)
Definition stamp (w : World) : World :=
  mkWorld (with_lastMsg (now w) (bot w)) (now w) (stdout w).

(** [time.Sleep(d * time.Second)]: the clock moves on by [d] seconds; a
    duration that is not positive returns at once. *)
Definition Sleep (d : Z) (w : World) : World :=
  mkWorld (bot w) (now w + Z.max 0 d) (stdout w).

(** ** The methods of [Bot] *)

(** [NewBot()]. *)
Definition NewBot : Bot :=
  {| server := "irc.twitch.tv";
     port := "6667";
     nickname := "adefault";
     channel := "adefault";
     mods := ∅;
     automsg := "This is a default test automessage";
     autoMsgCount := 5;
     conn := [];
     lastMsg := 0;
     maxMsgTime := 3;
     userLastMsg := ∅;
     userMaxLastMsg := 2 |}.

(** The chat line that [Message] puts on the connection. *)
Definition privmsg (b : Bot) (message : string) : write :=
  Fprintf ("PRIVMSG " +:+ channel b +:+ " :" +:+ message +:+ CRLF).

(** The two statements of the first branch of [Message], and the stamp. *)
Definition transmit (message : string) (w : World) : World :=
  stamp (send (privmsg (bot w) message) (Printf ("Bot: " +:+ message +:+ LF) w)).

(** The test of [Message]: [bot.lastMsg+bot.maxMsgTime <= time.Now().Unix()]. *)
Definition cooled (w : World) : bool :=
  (add64 (lastMsg (bot w)) (maxMsgTime (bot w)) <=? now w)%Z.

(** [Message] with its recursive call unfolded at most [fuel] times: nothing
    for the empty message; the line, then the stamp, when the cooldown is
    over; otherwise five seconds of sleep and the same again. *)
Fixpoint MessageN (fuel : nat) (message : string) (w : World) : outcome World :=
  if String.eqb message "" then Ok w
  else if cooled w then Ok (transmit message w)
  else match fuel with
       | O => Spin
       | S k => MessageN k message (Sleep 5 w)
       end.

(** The number of five-second sleeps after which the test of [Message]
    holds. *)
Definition retries (w : World) : nat :=
  Z.to_nat ((add64 (lastMsg (bot w)) (maxMsgTime (bot w)) - now w + 4) / 5).

(** [bot.Message(message)], run by one caller with nothing else running: the
    recursion gets the fuel it needs ([MessageN_enough], [MessageN_more_fuel]
    and [Message_total] below). *)
Definition Message (message : string) (w : World) : outcome World :=
  MessageN (retries w) message w.

(** The local [yourChannel] of [isModerator]: the channel without its first
    ['#']. *)
Definition yourChannel (b : Bot) : string := Replace1 (channel b) "#" "".

(** [bot.isModerator(username)]. A missing key of [bot.mods] reads [false]. *)
Definition isModerator (b : Bot) (username : string) : bool :=
  bool_decide (mods b !! username = Some true)
  || String.eqb username (yourChannel b).

(** [bot.timeout(username)]. *)
Definition timeout (username : string) (w : World) : outcome World :=
  if isModerator (bot w) username then Ok (Printf "Unmod before punishing" w)
  else w1 ← Message ("/timeout " +:+ username) w;
       Message ("Timed out user: " +:+ username) w1.

(** [bot.ban(username)]. *)
Definition ban (username : string) (w : World) : outcome World :=
  if isModerator (bot w) username then Ok (Printf "Unmod before punishing" w)
  else w1 ← Message ("/ban " +:+ username) w;
       Message ("Banned user: " +:+ username) w1.

(** [bot.unban(username)]. *)
Definition unban (username : string) (w : World) : outcome World :=
  if isModerator (bot w) username then Ok (Printf "Unmod before punishing" w)
  else w1 ← Message ("/unban " +:+ username) w;
       Message ("Unbanned user: " +:+ username) w1.

(** [bot.ParseCommand(user, theCommand)]. *)
Definition ParseCommand (user theCommand : string) (w : World) : outcome World :=
  if isModerator (bot w) user then
    let command := ToLower theCommand in
    let userinfo := Split theCommand " " in
    if HasPrefix command ":!timeout" || HasPrefix command "!timeout" then
      target ← index userinfo 1; timeout target w
    else if HasPrefix command ":!ban" || HasPrefix command "!ban" then
      target ← index userinfo 1; ban target w
    else if HasPrefix command ":!unban" || HasPrefix command "!unban" then
      target ← index userinfo 1; unban target w
    else Ok w
  else Message ("You are not a mod " +:+ user) w.

(** [isWebsite(theWebsite)]. *)
Definition suffixes : list string := [".com"; ".net"; ".org"; ".tv"; ".fm"; ".gg"].

Definition isWebsite (theWebsite : string) : bool :=
  existsb (fun suffix => Contains theWebsite suffix) suffixes.

(** ** [main] *)

(** The assignments of [main] from the flags, made when [-channel] is not
    empty. *)
Definition configure (chan nick auto : string) (count : Z) (b : Bot) : Bot :=
  if String.eqb chan "" then b
  else mkBot (server b) (port b) nick ("#" +:+ chan) auto count (conn b)
             (mods b) (userLastMsg b) (lastMsg b) (maxMsgTime b)
             (userMaxLastMsg b).

(** The three lines that [main] writes after connecting; [pass] stands for
    the credential that the source holds as a literal. *)
Definition handshake (pass : string) (w : World) : World :=
  send (Write ("JOIN " +:+ "#ajs94" +:+ CRLF))
    (send (Write ("NICK " +:+ "testbot" +:+ CRLF))
       (send (Write ("PASS " +:+ pass +:+ CRLF)) w)).

(** The body of the [for] loop of [main], for one line that [ReadLine]
    returned. *)
Definition mainStep (line : string) (w : World) : outcome World :=
  let msgParts := Split line " " in
  p0 ← index msgParts 0;
  if String.eqb p0 "PING" then
    p1 ← index msgParts 1;
    Ok (send (Write ("PONG " +:+ p1)) w)
  else if Contains line (".tmi.twitch.tv JOIN " +:+ channel (bot w)) then
    let joindata := Split line (".tmi.twitch.tv JOIN " +:+ channel (bot w)) in
    j0 ← index joindata 0;
    let userinfo := Split j0 "@" in
    u1 ← index userinfo 1;
    Message ("PogChamp User Joined: " +:+ u1) w
  else if Contains line (".tmi.twitch.tv PART " +:+ channel (bot w)) then
    let joindata := Split line (".tmi.twitch.tv PART " +:+ channel (bot w)) in
    j0 ← index joindata 0;
    let userinfo := Split j0 "@" in
    u1 ← index userinfo 1;
    Message ("BibleThump User Left: " +:+ u1) w
  else
    p3 ← index msgParts 3;
    if HasPrefix p3 ":!" then
      let userdata := Split line (".tmi.twitch.tv PRIVMSG " +:+ channel (bot w)) in
      d0 ← index userdata 0;
      let username := Split d0 "@" in
      d1 ← index userdata 1;
      let usermessage := Replace1 d1 " :" "" in
      u1 ← index username 1;
      ParseCommand u1 usermessage
        (Printf (usermessage +:+ LF) (Printf (u1 +:+ " ") w))
    else if isWebsite p3 then
      let userdata := Split line (".tmi.twitch.tv PRIVMSG " +:+ channel (bot w)) in
      d0 ← index userdata 0;
      let username := Split d0 "@" in
      u1 ← index username 1;
      timeout u1 w
    else Ok w.

(** The loop of [main] over the lines that arrive, until the read fails. *)
Fixpoint mainLoop (lines : list string) (w : World) : outcome World :=
  match lines with
  | [] => Ok w
  | line :: rest => w1 ← mainStep line w; mainLoop rest w1
  end.

(** The body of the loop of [ConsoleInput], for one [text] read from the
    console. *)
Definition consoleStep (text : string) (w : World) : outcome World :=
  if HasPrefix text "!quit" then
    w1 ← Message "Shutting down bot :(" w; Exit w1
  else if HasPrefix text "!" then
    ParseCommand (yourChannel (bot w)) text w
  else if negb (String.eqb text "") then Message text w
  else Ok w.

(** The body of the loop of [Automessage]: [autoMsgCount] minutes of sleep, a
    duration counted in nanoseconds, then the message. *)
Definition automessageStep (w : World) : outcome World :=
  Message (automsg (bot w))
    (Sleep (mul64 (autoMsgCount (bot w)) 60000000000 / 1000000000) w).

(** What happens next in the program, seen one goroutine at a time. *)
Inductive event : Type :=
  | Line (line : string)
  | Console (text : string)
  | Timer
  | Tick (seconds : Z).

Definition react (e : event) (w : World) : outcome World :=
  match e with
  | Line line => mainStep line w
  | Console text => consoleStep text w
  | Timer => automessageStep w
  | Tick d => Ok (Sleep d w)
  end.

Fixpoint run (es : list event) (w : World) : outcome World :=
  match es with
  | [] => Ok w
  | e :: rest => w1 ← react e w; run rest w1
  end.

(** [bot.Connect()], when the dial succeeds at the first attempt. *)
Definition Connect (w : World) : World :=
  Printf ("Connected to " +:+ server (bot w) +:+ LF)
    (Printf ("Connecting to Twitch server" +:+ LF) w).

(** [main] up to its loop, at second [t0]: a new bot, connected, configured
    from the flags, the handshake written. *)
Definition boot (chan nick auto : string) (count : Z) (pass : string) (t0 : Z) : World :=
  let w0 := Connect (mkWorld NewBot t0 []) in
  let w1 := mkWorld (configure chan nick auto count (bot w0)) (now w0) (stdout w0) in
  let w2 := handshake pass (Printf ("Giving info to server..." +:+ LF) w1) in
  Printf ("Channel: " +:+ channel (bot w2) +:+ LF)
    (Printf ("Info given to server" +:+ LF) w2).

(** The flags' default values. *)
Definition boot_default (t0 : Z) : World :=
  boot "ajs94" "testbot" "This is an automessage message" 1 "oauth:token" t0.

(** ** Several goroutines in [Message]

    [main], [ConsoleInput] and [Automessage] run as goroutines and all call
    [bot.Message] on the one bot, with no lock. A call is followed here
    statement by statement; a schedule says which call moves next and when
    the clock advances. *)

Module Goroutines.

(** Where a call of [Message] stands. *)
Inductive pc : Type :=
  | Entry (message : string)      (* at the top of the function *)
  | Sending (message : string)    (* the test held: [Printf], [Fprintf] next *)
  | Stamping                      (* written: [bot.lastMsg = ...] next *)
  | Sleeping (message : string) (wake : Z)  (* in [time.Sleep] until [wake] *)
  | Returned.

(** One statement of one call. *)
Definition advance (p : pc) (w : World) : pc * World :=
  match p with
  | Entry m =>
      if String.eqb m "" then (Returned, w)
      else if cooled w then (Sending m, w)
      else (Sleeping m (now w + 5), w)
  | Sending m =>
      (Stamping, send (privmsg (bot w) m) (Printf ("Bot: " +:+ m +:+ LF) w))
  | Stamping => (Returned, stamp w)
  | Sleeping m wake =>
      if (wake <=? now w)%Z then (Entry m, w) else (Sleeping m wake, w)
  | Returned => (Returned, w)
  end.

Record system : Type := mkSystem {
  world : World;
  callers : list pc
}.

(** A schedule is a list of moves: a goroutine calls [Message], the call
    numbered [g] (in the order of the calls, from 0) runs one statement, or
    [d] seconds pass. *)
Inductive move : Type :=
  | Call (message : string)
  | Run (g : nat)
  | Pass (d : Z).

Definition exec (s : system) (mv : move) : system :=
  match mv with
  | Call m => mkSystem (world s) (callers s ++ [Entry m])
  | Run g =>
      match callers s !! g with
      | Some p =>
          let '(p1, w1) := advance p (world s) in
          mkSystem w1 (<[g := p1]> (callers s))
      | None => s
      end
  | Pass d => mkSystem (Sleep d (world s)) (callers s)
  end.

Definition execs (sched : list move) (s : system) : system :=
  fold_left exec sched s.

Definition start (w : World) : system := mkSystem w [].

(** The messages submitted by a schedule, in the order of the calls. *)
Definition submitted (sched : list move) : list string :=
  omap (fun mv => match mv with Call m => Some m | _ => None end) sched.

(** The schedule of a call that runs alone and sleeps [k] times. *)
Fixpoint alone (g : nat) (k : nat) : list move :=
  match k with
  | O => [Run g; Run g; Run g]
  | S k' => Run g :: Pass 5 :: Run g :: alone g k'
  end.

(** Four submissions; ["b"] and ["c"] find the cooldown running and sleep;
    ["d"] arrives after it and is sent at once, so that ["b"] wakes into a
    new cooldown and sleeps again, while ["c"] wakes after it. *)
Definition overtaking : list move :=
  [ Call "a"; Run 0; Run 0; Run 0;
    Call "b"; Run 1;
    Pass 2; Call "c"; Run 2;
    Pass 2; Call "d"; Run 3; Run 3; Run 3;
    Pass 1; Run 1; Run 1;
    Pass 2; Run 2; Run 2; Run 2; Run 2;
    Pass 3; Run 1; Run 1; Run 1; Run 1 ].

(** Two calls made in the same second, each past the test before the other
    has written. *)
Definition racing : list move :=
  [ Call "a"; Call "b"; Run 0; Run 1; Run 0; Run 1; Run 0; Run 1 ].

(** One more round against the waiting call 1: four seconds on, a new call
    is made and sent at once; a second later call 1 wakes, finds the cooldown
    running and goes back to sleep. *)
Definition round (j : nat) : list move :=
  [ Pass 4; Call "x"; Run (j + 2); Run (j + 2); Run (j + 2);
    Pass 1; Run 1; Run 1 ].

Fixpoint rounds (j n : nat) : list move :=
  match n with
  | O => []
  | S n' => round j ++ rounds (S j) n'
  end.

Definition starving (n : nat) : list move :=
  [ Call "a"; Run 0; Run 0; Run 0; Call "b"; Run 1 ] ++ rounds 0 n.

(** Call 1 still waits with ["b"] after [j] rounds. *)
Definition waiting (j : nat) (s : system) : Prop :=
  now (world s) = 100 + 5 * Z.of_nat j
  /\ 0 <= lastMsg (bot (world s)) <= now (world s)
  /\ maxMsgTime (bot (world s)) = 3
  /\ channel (bot (world s)) = "#ajs94"
  /\ callers s = Returned :: Sleeping "b" (105 + 5 * Z.of_nat j) :: replicate j Returned
  /\ Forall (fun e => e.2 <> Fprintf ("PRIVMSG #ajs94 :b" +:+ CRLF)) (conn (bot (world s))).

End Goroutines.

(** ** Sequences of submissions by one caller *)

(** One caller submits the messages one after the other, each call of
    [Message] returning before the next is made. *)
Fixpoint submit (messages : list string) (w : World) : outcome World :=
  match messages with
  | [] => Ok w
  | m :: rest => w1 ← Message m w; submit rest w1
  end.

(** Consecutive instants are at least [gap] apart. *)
Fixpoint spaced (gap : Z) (ts : list Z) : Prop :=
  match ts with
  | [] => True
  | t1 :: rest =>
      match rest with
      | [] => True
      | t2 :: _ => t1 + gap <= t2
      end /\ spaced gap rest
  end.

(** ** Notions used in the statements *)

(** The second at which a call of [Message] made in [w] puts its line on the
    connection. *)
Definition due (w : World) : Z := now w + 5 * Z.of_nat (retries w).

(** The world with the clock at [t]. *)
Definition at_time (t : Z) (w : World) : World := mkWorld (bot w) t (stdout w).

(** The fields that no method assigns after [main] has configured the bot. *)
Definition settings (b : Bot) : string * string * string * string * string * Z * gmap string bool * gmap string Z * Z * Z :=
  (server b, port b, nickname b, channel b, automsg b, autoMsgCount b,
   mods b, userLastMsg b, maxMsgTime b, userMaxLastMsg b).

(** The owner's name in the spec's words: the channel identifier with its
    leading ['#'] removed. *)
Definition ownerName (chan : string) : string :=
  match chan with
  | String "#"%char rest => rest
  | _ => chan
  end.

(** A channel identifier whose only ['#'], if any, comes first: what [main]
    builds from the [-channel] flag, and the default of [NewBot]. *)
Definition hash_leads (chan : string) : Prop :=
  HasPrefix chan "#" = true \/ Contains chan "#" = false.

(** The three moderation actions. *)
Inductive action : Type := Timeout | Ban | Unban.

Definition perform (a : action) : string -> World -> outcome World :=
  match a with
  | Timeout => timeout
  | Ban => ban
  | Unban => unban
  end.

(** The chat command that carries the action out, and the sentence that
    confirms it. *)
Definition directive (a : action) (username : string) : string :=
  match a with
  | Timeout => "/timeout "
  | Ban => "/ban "
  | Unban => "/unban "
  end +:+ username.

Definition confirmation (a : action) (username : string) : string :=
  match a with
  | Timeout => "Timed out user: "
  | Ban => "Banned user: "
  | Unban => "Unbanned user: "
  end +:+ username.

(** One of the keywords of [ParseCommand] starts the lower-cased command. *)
Definition recognised (command : string) : bool :=
  (HasPrefix command ":!timeout" || HasPrefix command "!timeout")
  || ((HasPrefix command ":!ban" || HasPrefix command "!ban")
      || (HasPrefix command ":!unban" || HasPrefix command "!unban")).

(** The bytes that the calls in [c] put on the connection, one after the
    other (for formats without verbs). *)
Definition stream (c : list (Z * write)) : string :=
  foldr (fun e rest => payload e.2 +:+ rest) EmptyString c.

(** The world in which a piece of the program ends, when it returns or
    exits. *)
Definition final (o : outcome World) : option World :=
  match o with
  | Ok w | Exit w => Some w
  | Panic | Spin => None
  end.

(** [o] ends, if it ends, with the settings of [b]. *)
Definition keeps (o : outcome World) (b : Bot) : Prop :=
  forall w1, final o = Some w1 -> settings (bot w1) = settings b.

(** ** Further notions: well-formed lines *)

(** The byte [c] does not occur in [s]. *)
Definition lacks (c : ascii) (s : string) : Prop :=
  Contains s (String c EmptyString) = false.

(** A login name as it can stand in a line's prefix: no dot, no at sign, no
    space. *)
Definition login (u : string) : Prop :=
  lacks "." u /\ lacks "@" u /\ lacks " " u.

(** The prefix that the server puts before a user's line: [:u!u@u]. *)
Definition sender (u : string) : string :=
  ":" +:+ u +:+ "!" +:+ u +:+ "@" +:+ u.

(** What follows a word: nothing, or a space and more. *)
Definition ends_word (rest : string) : Prop :=
  rest = EmptyString \/ exists more, rest = " " +:+ more.

(** A chat line as the server sends it: the sender's prefix, the marker
    with the channel, and the body after [" :"]. *)
Definition chatLine (u chan body : string) : string :=
  sender u +:+ (".tmi.twitch.tv PRIVMSG " +:+ chan) +:+ " :" +:+ body.

(** The keyword of each action, as [ParseCommand] looks for it. *)
Definition keyword (a : action) : string :=
  match a with
  | Timeout => "!timeout"
  | Ban => "!ban"
  | Unban => "!unban"
  end.

(** ** Further parts of the program *)

(** [bot.Connect()] when the dial fails [failures] times before it succeeds.
    A call whose dial fails prints, sleeps ten seconds and calls [Connect]
    again; when that call has returned it goes on to the last statement and
    prints that it is connected, as the call whose dial succeeded did. *)
Fixpoint ConnectAfter (failures : nat) (w : World) : World :=
  let w1 := Printf ("Connecting to Twitch server" +:+ LF) w in
  match failures with
  | O => Printf ("Connected to " +:+ server (bot w1) +:+ LF) w1
  | S k =>
      let w2 := ConnectAfter k (Sleep 10 (Printf "Cannot connect to Twitch servers" w1)) in
      Printf ("Connected to " +:+ server (bot w2) +:+ LF) w2
  end.

(** The first [rounds] turns of the loop of [Automessage]. *)
Fixpoint Automessage (rounds : nat) (w : World) : outcome World :=
  match rounds with
  | O => Ok w
  | S k => w1 ← automessageStep w; Automessage k w1
  end.

(** The seconds at which the chat lines of [c] were sent: the calls of
    [Fprintf], which only [Message] makes. *)
Definition chat_times (c : list (Z * write)) : list Z :=
  omap (fun e => match e.2 with Fprintf _ => Some e.1 | Write _ => None end) c.

(** The state of the sender is in order: the last stamp is not in the
    future, and the chat lines sent so far are at least [maxMsgTime] apart,
    none after the stamp. *)
Definition paced (w : World) : Prop :=
  0 <= maxMsgTime (bot w)
  /\ 0 <= lastMsg (bot w) <= now w
  /\ spaced (maxMsgTime (bot w)) (chat_times (conn (bot w)))
  /\ Forall (fun t => t <= lastMsg (bot w)) (chat_times (conn (bot w))).

(** [w1] comes after [w] in a run: same settings, the clock not moved back,
    the connection only written further, and the sender still in order as
    long as the clock is far from the end of [int64]. *)
Definition follows (w w1 : World) : Prop :=
  settings (bot w1) = settings (bot w)
  /\ now w <= now w1
  /\ (exists more, conn (bot w1) = conn (bot w) ++ more)
  /\ (now w1 + maxMsgTime (bot w) < 2 ^ 63 -> paced w -> paced w1).

Definition orderly (w : World) (o : outcome World) : Prop :=
  forall w1, final o = Some w1 -> follows w w1.

(** ** Further notions: calls in flight *)

(** The state of a call fits the message [m] it was made with. *)
Definition agrees (p : Goroutines.pc) (m : string) : Prop :=
  match p with
  | Goroutines.Entry m' | Goroutines.Sleeping m' _ => m' = m
  | Goroutines.Sending m' => m' = m /\ m <> EmptyString
  | Goroutines.Stamping => m <> EmptyString
  | Goroutines.Returned => True
  end.

(** What a call made with [m] has put on the connection when it stands at
    [p]: its line once it is past the write, nothing before, and nothing at
    all for the empty message. *)
Definition delivered (p : Goroutines.pc) (m : string) : list string :=
  match p with
  | Goroutines.Stamping => [m]
  | Goroutines.Returned => if String.eqb m EmptyString then [] else [m]
  | _ => []
  end.

Definition lines_of (cs : list Goroutines.pc) (msgs : list string) : list string :=
  concat (zip_with delivered cs msgs).

(** The connection accounts for the calls: since [w0] it has gained, up to
    order, exactly the lines of the calls that are past their write. *)
Definition accounted (w0 : World) (s : Goroutines.system) (msgs : list string) : Prop :=
  settings (bot (Goroutines.world s)) = settings (bot w0)
  /\ Forall2 agrees (Goroutines.callers s) msgs
  /\ exists added,
       conn (bot (Goroutines.world s)) = conn (bot w0) ++ added
       /\ added.*2 ≡ₚ map (privmsg (bot w0)) (lines_of (Goroutines.callers s) msgs).


(** * Properties *)

(** ** Go's [strings] on examples *)

Example Split_words :
  Split "PING :tmi.twitch.tv" " " = ["PING"; ":tmi.twitch.tv"].
Proof. reflexivity. Qed.

Example Split_no_separator : Split "!timeout" " " = ["!timeout"].
Proof. reflexivity. Qed.

Example Split_empty_line : Split "" " " = [""].
Proof. reflexivity. Qed.

Example Split_long_separator :
  Split ":u!u@u.tmi.twitch.tv PRIVMSG #c :hi" ".tmi.twitch.tv PRIVMSG #c"
  = [":u!u@u"; " :hi"].
Proof. reflexivity. Qed.

Example Replace1_hash : Replace1 "#ajs94" "#" "" = "ajs94".
Proof. reflexivity. Qed.

Example Replace1_inner : Replace1 " :!ban x :y" " :" "" = "!ban x :y".
Proof. reflexivity. Qed.

Example ToLower_keyword : ToLower "!TimeOut Bob" = "!timeout bob".
Proof. reflexivity. Qed.

(** ** Prefixes *)

Lemma HasPrefix_empty (s : string) : HasPrefix s "" = true.
Proof. destruct s; reflexivity. Qed.

Lemma HasPrefix_String (c a : ascii) (s p : string) :
  HasPrefix (String c s) (String a p) = Ascii.eqb a c && HasPrefix s p.
Proof.
  unfold HasPrefix.
  change (String.prefix (String a p) (String c s))
    with (if Ascii.ascii_dec a c then String.prefix p s else false).
  destruct (Ascii.ascii_dec a c) as [->|Hne].
  - now rewrite Ascii.eqb_refl.
  - apply Ascii.eqb_neq in Hne. now rewrite Hne.
Qed.

Lemma HasPrefix_of_empty (a : ascii) (p : string) :
  HasPrefix "" (String a p) = false.
Proof. reflexivity. Qed.

(** ** The clock and the recursion of [Message] *)

Lemma Sleep_zero (w : World) : Sleep 0 w = w.
Proof. destruct w as [b t o]. unfold Sleep. simpl. f_equal. lia. Qed.

Lemma Sleep_twice (d e : Z) (w : World) :
  0 <= d -> 0 <= e -> Sleep e (Sleep d w) = Sleep (d + e) w.
Proof. intros Hd He. unfold Sleep. simpl. f_equal. lia. Qed.

Lemma bot_Sleep (d : Z) (w : World) : bot (Sleep d w) = bot w.
Proof. reflexivity. Qed.

Lemma cooled_spec (w : World) :
  cooled w = true <-> add64 (lastMsg (bot w)) (maxMsgTime (bot w)) <= now w.
Proof. unfold cooled. apply Z.leb_le. Qed.

Lemma cooled_false (w : World) :
  cooled w = false <-> now w < add64 (lastMsg (bot w)) (maxMsgTime (bot w)).
Proof. unfold cooled. rewrite Z.leb_gt. reflexivity. Qed.

Lemma retries_cooled (w : World) : cooled w = true -> retries w = 0%nat.
Proof.
  rewrite cooled_spec. intros H. unfold retries.
  set (L := add64 _ _) in *.
  assert ((L - now w + 4) / 5 <= 0) by (apply Z.lt_succ_r, Z.div_lt_upper_bound; lia).
  lia.
Qed.

Lemma retries_warm (w : World) :
  cooled w = false -> retries w = S (retries (Sleep 5 w)).
Proof.
  rewrite cooled_false. intros H. unfold retries. simpl.
  rewrite (Z.max_r 0 5) by lia.
  set (L := add64 _ _) in *.
  replace (L - now w + 4) with ((L - (now w + 5) + 4) + 1 * 5) by lia.
  rewrite Z.div_add by lia.
  assert (0 <= (L - (now w + 5) + 4) / 5) by (apply Z.div_pos; lia).
  lia.
Qed.

(** With enough fuel the recursion ends in the first branch, after
    [retries w] sleeps of five seconds. *)
Lemma MessageN_enough (fuel : nat) (message : string) (w : World) :
  message <> "" -> (retries w <= fuel)%nat ->
  MessageN fuel message w
  = Ok (transmit message (Sleep (5 * Z.of_nat (retries w)) w)).
Proof.
  intros Hne. apply String.eqb_neq in Hne.
  revert w. induction fuel as [|fuel IH]; intros w Hfuel; simpl; rewrite Hne.
  - destruct (cooled w) eqn:Hc.
    + rewrite (retries_cooled w Hc). simpl. now rewrite Sleep_zero.
    + rewrite (retries_warm w Hc) in Hfuel. lia.
  - destruct (cooled w) eqn:Hc.
    + rewrite (retries_cooled w Hc). simpl. now rewrite Sleep_zero.
    + rewrite (retries_warm w Hc) in Hfuel |- *.
      rewrite IH by lia. rewrite Sleep_twice by lia.
      do 3 f_equal. lia.
Qed.

(** [Message] returns for every message: what it does with one that is not
    empty. *)
Lemma Message_sends (message : string) (w : World) :
  message <> "" ->
  Message message w
  = Ok (transmit message (Sleep (5 * Z.of_nat (retries w)) w)).
Proof. intros Hne. unfold Message. now apply MessageN_enough. Qed.

Lemma MessageN_empty (fuel : nat) (w : World) : MessageN fuel "" w = Ok w.
Proof. destruct fuel; reflexivity. Qed.

Lemma Message_total (message : string) (w : World) :
  exists w1, Message message w = Ok w1.
Proof.
  destruct (String.eqb_spec message "") as [->|Hne].
  - exists w. apply MessageN_empty.
  - eexists. now apply Message_sends.
Qed.

(** More fuel than needed changes nothing. *)
Lemma MessageN_more_fuel (fuel : nat) (message : string) (w : World) :
  (retries w <= fuel)%nat -> MessageN fuel message w = Message message w.
Proof.
  intros Hfuel. destruct (String.eqb_spec message "") as [->|Hne].
  - unfold Message. now rewrite !MessageN_empty.
  - rewrite Message_sends by assumption. now apply MessageN_enough.
Qed.

Lemma Sleep_retries (w : World) :
  Sleep (5 * Z.of_nat (retries w)) w = at_time (due w) w.
Proof. unfold Sleep, at_time, due. f_equal. lia. Qed.

Lemma Message_due (message : string) (w : World) :
  message <> "" -> Message message w = Ok (transmit message (at_time (due w) w)).
Proof. intros Hne. rewrite Message_sends by assumption. now rewrite Sleep_retries. Qed.

Lemma add64_small (a b : Z) :
  - 2 ^ 63 <= a + b < 2 ^ 63 -> add64 a b = a + b.
Proof.
  intros H. unfold add64, wrap64.
  rewrite Z.mod_small by lia. lia.
Qed.

(** Where [due] lies: at [now] when the test holds already, otherwise in the
    first five seconds from the end of the cooldown, a multiple of five
    seconds from [now]. *)
Lemma due_cooled (w : World) : cooled w = true -> due w = now w.
Proof. intros H. unfold due. rewrite (retries_cooled w H). lia. Qed.

Lemma due_warm (w : World) :
  cooled w = false ->
  let L := add64 (lastMsg (bot w)) (maxMsgTime (bot w)) in
  L <= due w < L + 5 /\ now w < due w.
Proof.
  rewrite cooled_false. intros H L. fold L in H. unfold due, retries. fold L.
  assert (H0 : 0 <= (L - now w + 4) / 5) by (apply Z.div_pos; lia).
  rewrite Z2Nat.id by assumption.
  pose proof (Z.div_mod (L - now w + 4) 5 ltac:(lia)) as Hdm.
  pose proof (Z.mod_pos_bound (L - now w + 4) 5 ltac:(lia)) as Hm.
  lia.
Qed.

Lemma due_bounds (w : World) :
  let L := add64 (lastMsg (bot w)) (maxMsgTime (bot w)) in
  now w <= due w /\ L <= due w /\ due w <= Z.max (now w) (L + 4).
Proof.
  intros L. destruct (cooled w) eqn:Hc.
  - rewrite (due_cooled w Hc). apply cooled_spec in Hc. fold L in Hc. lia.
  - destruct (due_warm w Hc) as [H1 H2]. fold L in H1. lia.
Qed.

(** ** What a call leaves alone *)

Lemma settings_channel (b1 b2 : Bot) :
  settings b1 = settings b2 -> channel b1 = channel b2.
Proof. unfold settings. congruence. Qed.

Lemma settings_mods (b1 b2 : Bot) :
  settings b1 = settings b2 -> mods b1 = mods b2.
Proof. unfold settings. congruence. Qed.

Lemma settings_maxMsgTime (b1 b2 : Bot) :
  settings b1 = settings b2 -> maxMsgTime b1 = maxMsgTime b2.
Proof. unfold settings. congruence. Qed.

Lemma settings_isModerator (b1 b2 : Bot) (u : string) :
  settings b1 = settings b2 -> isModerator b1 u = isModerator b2 u.
Proof.
  intros H. unfold isModerator, yourChannel.
  now rewrite (settings_channel _ _ H), (settings_mods _ _ H).
Qed.

Lemma settings_privmsg (b1 b2 : Bot) (m : string) :
  settings b1 = settings b2 -> privmsg b1 m = privmsg b2 m.
Proof. intros H. unfold privmsg. now rewrite (settings_channel _ _ H). Qed.

Lemma MessageN_settings (fuel : nat) (message : string) (w w1 : World) :
  MessageN fuel message w = Ok w1 -> settings (bot w1) = settings (bot w).
Proof.
  revert w. induction fuel as [|fuel IH]; intros w; simpl;
    destruct (String.eqb message ""); try (intros [= <-]; reflexivity);
    destruct (cooled w); try (intros [= <-]; reflexivity).
  intros H. now rewrite (IH _ H).
Qed.

Lemma Message_settings (message : string) (w w1 : World) :
  Message message w = Ok w1 -> settings (bot w1) = settings (bot w).
Proof. apply MessageN_settings. Qed.

(** ** The empty message *)

(** C8. Submitting the empty string to [Message] is a no-op: the call returns
    with the world as it was (nothing written to the connection, [lastMsg]
    unchanged, the clock not even read), whatever the fuel, and a goroutine at
    the top of such a call returns in one statement without touching the
    world. *)
Theorem Message_empty_noop (w : World) :
  Message "" w = Ok w
  /\ (forall fuel, MessageN fuel "" w = Ok w)
  /\ Goroutines.advance (Goroutines.Entry "") w = (Goroutines.Returned, w).
Proof.
  split; [apply MessageN_empty|].
  split; [intros fuel; apply MessageN_empty|reflexivity].
Qed.

(** ** The moderator check *)

Lemma Replace1_absent (s old new : string) :
  Contains s old = false -> Replace1 s old new = s.
Proof.
  induction s as [|c s IH]; simpl; intros H;
    apply orb_false_elim in H as [H1 H2]; rewrite H1.
  - reflexivity.
  - now rewrite IH.
Qed.

Lemma Replace1_hash_leads (chan : string) :
  hash_leads chan -> Replace1 chan "#" "" = ownerName chan.
Proof.
  intros [H|H].
  - destruct chan as [|c rest]; [discriminate|].
    rewrite HasPrefix_String, HasPrefix_empty, andb_true_r in H.
    apply Ascii.eqb_eq in H as <-.
    cbn [Replace1]. now rewrite HasPrefix_String, HasPrefix_empty.
  - rewrite Replace1_absent by assumption.
    destruct chan as [|c rest]; [reflexivity|].
    cbn [Contains] in H. apply orb_false_elim in H as [H _].
    rewrite HasPrefix_String, HasPrefix_empty, andb_true_r in H.
    apply Ascii.eqb_neq in H.
    destruct c as [[] [] [] [] [] [] [] []]; try reflexivity.
    now contradiction H.
Qed.

(** The test of [isModerator], for any bot. *)
Lemma isModerator_true (b : Bot) (username : string) :
  isModerator b username = true <->
  mods b !! username = Some true \/ username = yourChannel b.
Proof.
  unfold isModerator. rewrite orb_true_iff, bool_decide_eq_true, String.eqb_eq.
  reflexivity.
Qed.

(** C9. [isModerator(username)] is true exactly when [username] is in the
    moderator set ([bot.mods] holds [true] for it) or is the owner's name,
    the channel identifier without its leading ['#']. The check is a function
    of the bot's fields alone and returns only the boolean: it has no world
    to send on and no state to change. *)
Theorem isModerator_spec (b : Bot) (username : string) :
  hash_leads (channel b) ->
  (isModerator b username = true <->
   mods b !! username = Some true \/ username = ownerName (channel b)).
Proof.
  intros H. rewrite isModerator_true. unfold yourChannel.
  now rewrite Replace1_hash_leads.
Qed.

Lemma isModerator_spec_witness :
  hash_leads "#ajs94"
  /\ (isModerator (configure "ajs94" "testbot" "hello" 1 NewBot) "ajs94" = true <->
      mods (configure "ajs94" "testbot" "hello" 1 NewBot) !! "ajs94" = Some true
      \/ "ajs94" = ownerName "#ajs94").
Proof.
  assert (H : hash_leads "#ajs94") by (left; reflexivity).
  split; [exact H|].
  exact (isModerator_spec (configure "ajs94" "testbot" "hello" 1 NewBot) "ajs94" H).
Defined.

(** ** One caller, one message after the other *)

Lemma last_cons_default (l : list Z) (t d : Z) :
  List.last (t :: l) d = List.last l t.
Proof.
  revert t d. induction l as [|a l IH]; intros t d; [reflexivity|].
  change (List.last (t :: a :: l) d) with (List.last (a :: l) d).
  rewrite !IH. reflexivity.
Qed.

Lemma bind_Ok (m : outcome World) : m ≫= Ok = m.
Proof. now destruct m. Qed.

(** A message that is not empty goes out at [due w], which is not before the
    end of the cooldown when the sum in the test does not overflow. *)
Lemma Message_step (message : string) (w : World) :
  message <> "" ->
  - 2 ^ 63 <= lastMsg (bot w) + maxMsgTime (bot w) < 2 ^ 63 ->
  Message message w = Ok (transmit message (at_time (due w) w))
  /\ now w <= due w
  /\ lastMsg (bot w) + maxMsgTime (bot w) <= due w
  /\ due w <= Z.max (now w) (lastMsg (bot w) + maxMsgTime (bot w) + 4).
Proof.
  intros Hne Hrange. split; [now apply Message_due|].
  pose proof (due_bounds w) as Hb. simpl in Hb.
  now rewrite (add64_small _ _ Hrange) in Hb.
Qed.

Lemma submit_spaced (messages : list string) (w : World) :
  Forall (fun m => m <> "") messages ->
  0 <= maxMsgTime (bot w) ->
  - 2 ^ 63 <= lastMsg (bot w) + maxMsgTime (bot w) ->
  Z.max (now w) (lastMsg (bot w) + maxMsgTime (bot w))
    + Z.of_nat (length messages) * (maxMsgTime (bot w) + 5) < 2 ^ 63 ->
  exists w1 sent,
    submit messages w = Ok w1
    /\ conn (bot w1) = conn (bot w) ++ sent
    /\ sent.*2 = map (privmsg (bot w)) messages
    /\ spaced (maxMsgTime (bot w)) (lastMsg (bot w) :: sent.*1)
    /\ Forall (fun t => now w <= t) (sent.*1)
    /\ List.last (sent.*1) (lastMsg (bot w)) = lastMsg (bot w1)
    /\ settings (bot w1) = settings (bot w).
Proof.
  revert w. induction messages as [|m rest IH]; intros w Hall HM Hlow Hhigh.
  - exists w, []. simpl. rewrite app_nil_r. repeat split; auto.
  - apply Forall_cons in Hall as [Hm Hrest].
    rewrite length_cons, Nat2Z.inj_succ in Hhigh.
    assert (Hpos : 0 <= Z.of_nat (length rest) * (maxMsgTime (bot w) + 5))
      by (apply Z.mul_nonneg_nonneg; lia).
    destruct (Message_step m w Hm) as (Hsend & Hnow & Hcool & Hlate); [lia|].
    set (t := due w) in *.
    set (w1 := transmit m (at_time t w)) in *.
    assert (Hset : settings (bot w1) = settings (bot w)) by reflexivity.
    assert (HM1 : maxMsgTime (bot w1) = maxMsgTime (bot w)) by reflexivity.
    assert (Hl1 : lastMsg (bot w1) = t) by reflexivity.
    assert (Hn1 : now w1 = t) by reflexivity.
    destruct (IH w1 Hrest) as (w2 & sent & Hrun & Hconn & Hpay & Hsp & Hafter & Hlast & Hset2).
    + lia.
    + lia.
    + rewrite HM1, Hl1, Hn1. lia.
    + exists w2, ((t, privmsg (bot w) m) :: sent).
      cbn [submit]. rewrite Hsend. cbn [mbind outcome_bind].
      rewrite HM1, Hl1, Hn1 in *.
      split; [exact Hrun|].
      split; [rewrite Hconn; subst w1; simpl; now rewrite <- app_assoc|].
      split.
      { cbn [fmap list_fmap snd map]. f_equal. rewrite Hpay.
        apply map_ext. intros x. now apply settings_privmsg. }
      split.
      { change (lastMsg (bot w) + maxMsgTime (bot w) <= t
                /\ spaced (maxMsgTime (bot w)) (t :: sent.*1)).
        split; assumption. }
      split.
      { cbn [fmap list_fmap fst]. constructor; [exact Hnow|].
        eapply Forall_impl; [exact Hafter|]. simpl. intros; lia. }
      split; [|now rewrite Hset2].
      cbn [fmap list_fmap fst]. rewrite <- Hlast.
      apply last_cons_default.
Qed.

Lemma transmit_effect (message : string) (w : World) :
  conn (bot (transmit message w)) = conn (bot w) ++ [(now w, privmsg (bot w) message)]
  /\ lastMsg (bot (transmit message w)) = now w
  /\ now (transmit message w) = now w
  /\ settings (bot (transmit message w)) = settings (bot w).
Proof. repeat split. Qed.

(** The test of [Message] in the spec's words, when the sum does not
    overflow. *)
Lemma cooled_interval (w : World) :
  - 2 ^ 63 <= lastMsg (bot w) + maxMsgTime (bot w) < 2 ^ 63 ->
  (cooled w = true <-> maxMsgTime (bot w) <= now w - lastMsg (bot w)).
Proof. intros H. rewrite cooled_spec, (add64_small _ _ H). lia. Qed.

(** C3, for one caller at a time. A message that is not empty is never
    dropped. If [now - lastMsg >= maxMsgTime] it is sent at once and
    [lastMsg] becomes [now]. Otherwise the caller sleeps five seconds at a
    time and the message is sent once, at the first of these instants at
    which the interval has elapsed (less than five seconds after its end). A
    caller that submits messages one after the other gets each of them on
    the connection exactly once, in the order of submission, no two closer
    together than [maxMsgTime] seconds. Nothing is stated about callers that
    wait at the same time. *)
Theorem Message_single_caller (messages : list string) (w : World) :
  Forall (fun m => m <> "") messages ->
  0 <= maxMsgTime (bot w) ->
  - 2 ^ 63 <= lastMsg (bot w) + maxMsgTime (bot w) ->
  Z.max (now w) (lastMsg (bot w) + maxMsgTime (bot w))
    + Z.of_nat (length messages) * (maxMsgTime (bot w) + 5) < 2 ^ 63 ->
  (forall m, m <> "" ->
     (maxMsgTime (bot w) <= now w - lastMsg (bot w) ->
      exists w1, Message m w = Ok w1
        /\ conn (bot w1) = conn (bot w) ++ [(now w, privmsg (bot w) m)]
        /\ lastMsg (bot w1) = now w)
     /\ (now w - lastMsg (bot w) < maxMsgTime (bot w) ->
         exists w1 k, Message m w = Ok w1
           /\ 0 < k
           /\ lastMsg (bot w) + maxMsgTime (bot w) <= now w + 5 * k
                < lastMsg (bot w) + maxMsgTime (bot w) + 5
           /\ conn (bot w1) = conn (bot w) ++ [(now w + 5 * k, privmsg (bot w) m)]
           /\ lastMsg (bot w1) = now w + 5 * k))
  /\ exists w1 sent,
       submit messages w = Ok w1
       /\ conn (bot w1) = conn (bot w) ++ sent
       /\ sent.*2 = map (privmsg (bot w)) messages
       /\ spaced (maxMsgTime (bot w)) (lastMsg (bot w) :: sent.*1).
Proof.
  intros Hall HM Hlow Hhigh.
  assert (Hpos : 0 <= Z.of_nat (length messages) * (maxMsgTime (bot w) + 5))
    by (apply Z.mul_nonneg_nonneg; lia).
  assert (Hrange : - 2 ^ 63 <= lastMsg (bot w) + maxMsgTime (bot w) < 2 ^ 63) by lia.
  split.
  - intros m Hm. split; intros Hgap.
    + apply (cooled_interval w Hrange) in Hgap.
      exists (transmit m w). rewrite Message_due, (due_cooled w Hgap) by assumption.
      destruct w; repeat split.
    + assert (Hc : cooled w = false).
      { destruct (cooled w) eqn:Hc; [|reflexivity].
        apply (cooled_interval w Hrange) in Hc. lia. }
      destruct (due_warm w Hc) as [Hin Hafter].
      rewrite (add64_small _ _ Hrange) in Hin.
      exists (transmit m (at_time (due w) w)), (Z.of_nat (retries w)).
      split; [now apply Message_due|].
      unfold due in *. repeat split; try lia.
  - destruct (submit_spaced messages w Hall HM Hlow Hhigh)
      as (w1 & sent & H1 & H2 & H3 & H4 & _).
    exists w1, sent. auto.
Qed.

Lemma Message_single_caller_witness :
  let w := boot_default 100 in
  exists w1 sent,
    submit ["hello"; "again"] w = Ok w1
    /\ conn (bot w1) = conn (bot w) ++ sent
    /\ sent.*2 = map (privmsg (bot w)) ["hello"; "again"]
    /\ spaced (maxMsgTime (bot w)) (lastMsg (bot w) :: sent.*1).
Proof.
  apply (Message_single_caller ["hello"; "again"] (boot_default 100)).
  - repeat constructor; discriminate.
  - vm_compute; discriminate.
  - vm_compute; discriminate.
  - vm_compute; reflexivity.
Defined.

(** ** Callers that wait at the same time *)

Section Interleaving.
Import Goroutines.

(** A call that runs alone, with the clock moving only while it sleeps,
    does what [Message] does. *)
Lemma alone_Message (g : nat) (m : string) (cs : list pc) (w : World) :
  m <> "" -> cs !! g = Some (Entry m) ->
  exists w1,
    Message m w = Ok w1
    /\ execs (alone g (retries w)) (mkSystem w cs)
       = mkSystem w1 (<[g := Returned]> cs).
Proof.
  intros Hne. pose proof Hne as Hneb. apply String.eqb_neq in Hneb.
  remember (retries w) as n eqn:Hn.
  revert w cs Hn. induction n as [|n IH]; intros w cs Hn Hg;
    pose proof (lookup_lt_Some _ _ _ Hg) as Hlen.
  - assert (Hc : cooled w = true).
    { destruct (cooled w) eqn:Hc; [reflexivity|].
      rewrite (retries_warm w Hc) in Hn. discriminate. }
    exists (transmit m w). split.
    + rewrite Message_due, (due_cooled w Hc) by assumption.
      now destruct w.
    + unfold execs. cbn [alone fold_left exec world callers].
      rewrite Hg. cbn [advance]. rewrite Hneb, Hc.
      cbn [world callers].
      rewrite list_lookup_insert_eq by assumption. cbn [advance world callers].
      rewrite list_lookup_insert_eq by (now rewrite length_insert).
      cbn [advance]. now rewrite !list_insert_insert_eq.
  - assert (Hc : cooled w = false).
    { destruct (cooled w) eqn:Hc; [|reflexivity].
      rewrite (retries_cooled w Hc) in Hn. discriminate. }
    rewrite (retries_warm w Hc) in Hn. injection Hn as Hn.
    destruct (IH (Sleep 5 w) (<[g := Entry m]> cs) Hn) as (w1 & HM & Hrun).
    { now apply list_lookup_insert_eq. }
    exists w1. split.
    + rewrite <- HM. unfold Message. rewrite (retries_warm w Hc).
      cbn [MessageN]. now rewrite Hneb, Hc.
    + unfold execs in *. cbn [alone fold_left exec world callers].
      rewrite Hg. cbn [advance]. rewrite Hneb, Hc.
      cbn [world callers].
      rewrite list_lookup_insert_eq by assumption. cbn [advance].
      replace (now w + 5 <=? now (Sleep 5 w))%Z with true
        by (symmetry; apply Z.leb_le; simpl; lia).
      rewrite list_insert_insert_eq.
      rewrite Hrun. now rewrite list_insert_insert_eq.
Qed.

Lemma execs_app (l1 l2 : list move) (s : system) :
  execs (l1 ++ l2) s = execs l2 (execs l1 s).
Proof. apply fold_left_app. Qed.

(** A new call that finds the test true is sent in three statements. *)
Lemma fresh_call_sends (m : string) (cs : list pc) (w : World) :
  m <> "" -> cooled w = true ->
  execs [Call m; Run (length cs); Run (length cs); Run (length cs)] (mkSystem w cs)
  = mkSystem (transmit m w) (cs ++ [Returned]).
Proof.
  intros Hne Hc.
  destruct (alone_Message (length cs) m (cs ++ [Entry m]) w Hne) as (w1 & HM & Hrun).
  { now apply list_lookup_middle. }
  rewrite (retries_cooled w Hc) in Hrun.
  rewrite Message_due, (due_cooled w Hc) in HM by assumption.
  injection HM as <-.
  change (execs [Call m; Run (length cs); Run (length cs); Run (length cs)] (mkSystem w cs))
    with (execs (alone (length cs) 0) (mkSystem w (cs ++ [Entry m]))).
  rewrite Hrun.
  replace (length cs) with (length cs + 0)%nat by lia.
  rewrite insert_app_r. destruct w; reflexivity.
Qed.

(** A sleeper that wakes while the cooldown runs goes back to sleep. *)
Lemma sleeper_sleeps_again (g : nat) (m : string) (wake : Z) (cs : list pc) (w : World) :
  m <> "" -> cs !! g = Some (Sleeping m wake) -> wake <= now w -> cooled w = false ->
  execs [Run g; Run g] (mkSystem w cs)
  = mkSystem w (<[g := Sleeping m (now w + 5)]> cs).
Proof.
  intros Hne Hg Hwake Hc. apply String.eqb_neq in Hne.
  pose proof (lookup_lt_Some _ _ _ Hg) as Hlen.
  unfold execs. cbn [fold_left exec world callers]. rewrite Hg. cbn [advance].
  replace (wake <=? now w)%Z with true by (symmetry; now apply Z.leb_le).
  cbn [world callers]. rewrite list_lookup_insert_eq by assumption.
  cbn [advance]. rewrite Hne, Hc. now rewrite list_insert_insert_eq.
Qed.

Lemma round_keeps_waiting (j : nat) (s : system) :
  5 * Z.of_nat j < 2 ^ 62 -> waiting j s -> waiting (S j) (execs (round j) s).
Proof.
  intros Hj (Hnow & Hlast & HM & Hchan & Hcs & Hconn). destruct s as [w cs].
  cbn [world callers] in *.
  change (round j)
    with ([Pass 4] ++ [Call "x"; Run (j + 2); Run (j + 2); Run (j + 2)]
          ++ [Pass 1] ++ [Run 1; Run 1]).
  rewrite !execs_app.
  change (execs [Pass 4] (mkSystem w cs)) with (mkSystem (Sleep 4 w) cs).
  assert (Hlen : length cs = (j + 2)%nat).
  { rewrite Hcs. cbn [length]. rewrite length_replicate. lia. }
  rewrite <- Hlen. rewrite fresh_call_sends; [|discriminate|].
  2:{ apply cooled_spec. cbn [bot Sleep now]. rewrite HM, add64_small; lia. }
  set (w1 := transmit "x" (Sleep 4 w)).
  change (execs [Pass 1] (mkSystem w1 (cs ++ [Returned])))
    with (mkSystem (Sleep 1 w1) (cs ++ [Returned])).
  rewrite (sleeper_sleeps_again 1 "b" (105 + 5 * Z.of_nat j)).
  - unfold waiting. cbn [world callers]. subst w1. cbn.
    rewrite HM, Hchan, Hcs. cbn [app].
    rewrite <- replicate_cons_app, !Z.max_r by lia.
    repeat split; try lia.
    + cbn. do 3 f_equal. lia.
    + rewrite Forall_app. split; [exact Hconn|].
      constructor; [|constructor]. unfold privmsg. rewrite Hchan. discriminate.
  - discriminate.
  - now rewrite Hcs.
  - subst w1. cbn. lia.
  - apply cooled_false. subst w1. cbn. rewrite HM, add64_small; lia.
Qed.

Lemma rounds_keep_waiting (n j : nat) (s : system) :
  5 * Z.of_nat (j + n) < 2 ^ 62 -> waiting j s ->
  waiting (j + n) (execs (rounds j n) s).
Proof.
  revert j s. induction n as [|n IH]; intros j s Hbound Hw; cbn [rounds].
  - now replace (j + 0)%nat with j by lia.
  - rewrite execs_app. replace (j + S n)%nat with (S j + n)%nat in * by lia.
    apply IH; [lia|]. apply round_keeps_waiting; [lia|exact Hw].
Qed.

End Interleaving.

(** C3 as stated fails: submission order is not kept between senders that
    wait. With the default bot at second 100, ["b"] is submitted before
    ["c"], both have to wait, every call returns, and the line of ["c"] is on
    the connection before the line of ["b"]. *)
Lemma waiting_senders_overtake :
  let w := boot_default 100 in
  let s := Goroutines.execs Goroutines.overtaking (Goroutines.start w) in
  Goroutines.submitted Goroutines.overtaking = ["a"; "b"; "c"; "d"]
  /\ Goroutines.callers (Goroutines.execs (take 9 Goroutines.overtaking) (Goroutines.start w))
     = [Goroutines.Returned; Goroutines.Sleeping "b" 105; Goroutines.Sleeping "c" 107]
  /\ Goroutines.callers s
     = [Goroutines.Returned; Goroutines.Returned; Goroutines.Returned; Goroutines.Returned]
  /\ conn (bot (Goroutines.world s))
     = conn (bot w)
       ++ [(100, privmsg (bot w) "a"); (104, privmsg (bot w) "d");
           (107, privmsg (bot w) "c"); (110, privmsg (bot w) "b")].
Proof. vm_compute. repeat split. Qed.

(** Nor is a waiting sender sure to be served: as long as other callers
    keep sending just before it wakes, ["b"] stays off the connection. *)
Lemma waiting_sender_starves (n : nat) :
  5 * Z.of_nat n < 2 ^ 62 ->
  let s := Goroutines.execs (Goroutines.starving n)
             (Goroutines.start (boot_default 100)) in
  Goroutines.callers s !! 1%nat
  = Some (Goroutines.Sleeping "b" (105 + 5 * Z.of_nat n))
  /\ Forall (fun e => e.2 <> privmsg (bot (boot_default 100)) "b")
            (conn (bot (Goroutines.world s))).
Proof.
  intros Hn s. subst s. unfold Goroutines.starving. rewrite execs_app.
  destruct (rounds_keep_waiting n 0
              (Goroutines.execs
                 [Goroutines.Call "a"; Goroutines.Run 0; Goroutines.Run 0;
                  Goroutines.Run 0; Goroutines.Call "b"; Goroutines.Run 1]
                 (Goroutines.start (boot_default 100))))
    as (_ & _ & _ & _ & Hcs & Hconn).
  - exact Hn.
  - vm_compute. repeat split; try discriminate.
    repeat constructor; discriminate.
  - split; [now rewrite Hcs|exact Hconn].
Qed.

(** Without a lock around the test and the stamp, two callers can both pass
    the test: both lines go out in the same second. *)
Lemma unlocked_test_races :
  let w := boot_default 100 in
  let s := Goroutines.execs Goroutines.racing (Goroutines.start w) in
  conn (bot (Goroutines.world s))
  = conn (bot w) ++ [(100, privmsg (bot w) "a"); (100, privmsg (bot w) "b")]
  /\ ~ spaced (maxMsgTime (bot w)) [100; 100].
Proof.
  split; [vm_compute; reflexivity|].
  simpl. intros [H _]. vm_compute in H. now apply H.
Qed.

(** ** Commands *)

(** C7. An issuer who is neither in the moderator set nor the channel owner
    gets, for any command text, the rejection that names the issuer, sent
    through [Message]; that line is all that is put on the connection: no
    moderation directive, and no setting of the bot changes. The command text
    is not even looked at. *)
Theorem ParseCommand_rejects (user theCommand : string) (w : World) :
  mods (bot w) !! user <> Some true ->
  user <> yourChannel (bot w) ->
  exists w1,
    ParseCommand user theCommand w = Ok w1
    /\ Message ("You are not a mod " +:+ user) w = Ok w1
    /\ conn (bot w1)
       = conn (bot w) ++ [(due w, privmsg (bot w) ("You are not a mod " +:+ user))]
    /\ settings (bot w1) = settings (bot w).
Proof.
  intros Hmods Howner.
  assert (Hno : isModerator (bot w) user = false).
  { destruct (isModerator (bot w) user) eqn:H; [|reflexivity].
    apply isModerator_true in H as [H|H]; contradiction. }
  unfold ParseCommand. rewrite Hno.
  exists (transmit ("You are not a mod " +:+ user) (at_time (due w) w)).
  rewrite Message_due by discriminate. repeat split.
Qed.

Lemma ParseCommand_rejects_witness :
  exists w1,
    ParseCommand "bob" "!ban eve" (boot_default 100) = Ok w1
    /\ Message ("You are not a mod " +:+ "bob") (boot_default 100) = Ok w1
    /\ conn (bot w1)
       = conn (bot (boot_default 100))
         ++ [(due (boot_default 100),
              privmsg (bot (boot_default 100)) ("You are not a mod " +:+ "bob"))]
    /\ settings (bot w1) = settings (bot (boot_default 100)).
Proof.
  apply (ParseCommand_rejects "bob" "!ban eve" (boot_default 100)).
  - vm_compute. discriminate.
  - vm_compute. discriminate.
Defined.

Lemma perform_unfold (a : action) (username : string) (w : World) :
  perform a username w
  = if isModerator (bot w) username then Ok (Printf "Unmod before punishing" w)
    else submit [directive a username; confirmation a username] w.
Proof.
  destruct a; cbn [perform directive confirmation submit];
    unfold timeout, ban, unban;
    destruct (isModerator (bot w) username); try reflexivity;
    (destruct (Message _ w) as [w1| |?|]; cbn [mbind outcome_bind];
     [now rewrite bind_Ok|reflexivity..]).
Qed.

(** C6. A moderation action on a privileged target is refused: a note goes
    to standard output, nothing is put on the connection and [lastMsg] stays.
    On any other target the action puts exactly two lines on the connection,
    the directive against the target and then the confirmation, each sent by
    [Message]: the directive not before the cooldown of the last message has
    passed, the confirmation not before the cooldown of the directive. *)
Theorem moderation_action (a : action) (username : string) (w : World) :
  0 <= maxMsgTime (bot w) ->
  - 2 ^ 63 <= lastMsg (bot w) + maxMsgTime (bot w) ->
  Z.max (now w) (lastMsg (bot w) + maxMsgTime (bot w))
    + 2 * (maxMsgTime (bot w) + 5) < 2 ^ 63 ->
  exists w1,
    perform a username w = Ok w1
    /\ if isModerator (bot w) username
       then conn (bot w1) = conn (bot w)
            /\ lastMsg (bot w1) = lastMsg (bot w)
            /\ stdout w1 = stdout w ++ ["Unmod before punishing"]
       else exists t1 t2,
            conn (bot w1)
            = conn (bot w) ++ [(t1, privmsg (bot w) (directive a username));
                               (t2, privmsg (bot w) (confirmation a username))]
            /\ now w <= t1
            /\ lastMsg (bot w) + maxMsgTime (bot w) <= t1
            /\ t1 + maxMsgTime (bot w) <= t2
            /\ lastMsg (bot w1) = t2.
Proof.
  intros HM Hlow Hhigh. rewrite perform_unfold.
  destruct (isModerator (bot w) username).
  - eexists. split; [reflexivity|]. repeat split.
  - destruct (submit_spaced [directive a username; confirmation a username] w)
      as (w1 & sent & Hrun & Hconn & Hpay & Hsp & Hafter & Hlast & _); auto.
    { repeat constructor; destruct a; discriminate. }
    exists w1. split; [exact Hrun|].
    destruct sent as [|[t1 x1] [|[t2 x2] [|? ?]]]; try discriminate.
    injection Hpay as -> ->.
    exists t1, t2. rewrite Hconn.
    cbn in Hsp, Hafter, Hlast.
    apply Forall_cons in Hafter as [Hnow _].
    repeat split; try tauto. now symmetry.
Qed.

Lemma moderation_action_witness :
  exists w1,
    perform Ban "eve" (boot_default 100) = Ok w1
    /\ if isModerator (bot (boot_default 100)) "eve"
       then conn (bot w1) = conn (bot (boot_default 100))
            /\ lastMsg (bot w1) = lastMsg (bot (boot_default 100))
            /\ stdout w1 = stdout (boot_default 100) ++ ["Unmod before punishing"]
       else exists t1 t2,
            conn (bot w1)
            = conn (bot (boot_default 100))
              ++ [(t1, privmsg (bot (boot_default 100)) (directive Ban "eve"));
                  (t2, privmsg (bot (boot_default 100)) (confirmation Ban "eve"))]
            /\ now (boot_default 100) <= t1
            /\ lastMsg (bot (boot_default 100)) + maxMsgTime (bot (boot_default 100)) <= t1
            /\ t1 + maxMsgTime (bot (boot_default 100)) <= t2
            /\ lastMsg (bot w1) = t2.
Proof.
  apply (moderation_action Ban "eve" (boot_default 100)).
  - vm_compute. discriminate.
  - vm_compute. discriminate.
  - vm_compute. reflexivity.
Defined.

Example refusal_of_owner :
  perform Timeout "ajs94" (boot_default 100)
  = Ok (Printf "Unmod before punishing" (boot_default 100)).
Proof. reflexivity. Qed.

(** ** What the whole program leaves alone *)

Lemma keeps_Ok (w : World) (b : Bot) :
  settings (bot w) = settings b -> keeps (Ok w) b.
Proof. intros H w1 [= <-]. exact H. Qed.

Lemma keeps_Exit (w : World) (b : Bot) :
  settings (bot w) = settings b -> keeps (Exit w) b.
Proof. intros H w1 [= <-]. exact H. Qed.

Lemma keeps_bind (m : outcome World) (f : World -> outcome World) (b : Bot) :
  keeps m b ->
  (forall w1, settings (bot w1) = settings b -> keeps (f w1) b) ->
  keeps (m ≫= f) b.
Proof.
  intros Hm Hf. destruct m as [w1| |w1|]; cbn [mbind outcome_bind].
  - apply Hf, Hm. reflexivity.
  - intros ? [=].
  - exact Hm.
  - intros ? [=].
Qed.

Lemma keeps_index (l : list string) (i : nat) (f : string -> outcome World) (b : Bot) :
  (forall x, keeps (f x) b) -> keeps (index l i ≫= f) b.
Proof.
  intros Hf. unfold index. destruct (l !! i); cbn [mbind outcome_bind].
  - apply Hf.
  - intros ? [=].
Qed.

Lemma keeps_Message (message : string) (w : World) (b : Bot) :
  settings (bot w) = settings b -> keeps (Message message w) b.
Proof.
  intros H w1 Hw1. destruct (Message message w) as [w2| | |] eqn:HM; try discriminate.
  - injection Hw1 as <-. now rewrite (Message_settings _ _ _ HM).
  - destruct (Message_total message w) as [w3 Hw3]. congruence.
Qed.

Lemma keeps_perform (a : action) (username : string) (w : World) (b : Bot) :
  settings (bot w) = settings b -> keeps (perform a username w) b.
Proof.
  intros H. rewrite perform_unfold. destruct (isModerator (bot w) username).
  - now apply keeps_Ok.
  - cbn [submit]. apply keeps_bind; [now apply keeps_Message|].
    intros w1 H1. apply keeps_bind; [now apply keeps_Message|].
    intros w2 H2. now apply keeps_Ok.
Qed.

Lemma keeps_timeout (username : string) (w : World) (b : Bot) :
  settings (bot w) = settings b -> keeps (timeout username w) b.
Proof. apply (keeps_perform Timeout). Qed.

Lemma keeps_ban (username : string) (w : World) (b : Bot) :
  settings (bot w) = settings b -> keeps (ban username w) b.
Proof. apply (keeps_perform Ban). Qed.

Lemma keeps_unban (username : string) (w : World) (b : Bot) :
  settings (bot w) = settings b -> keeps (unban username w) b.
Proof. apply (keeps_perform Unban). Qed.

Create HintDb keeps.
#[local] Hint Resolve keeps_Ok keeps_Exit keeps_Message keeps_timeout
  keeps_ban keeps_unban : keeps.

(** Goes down the tests and the indexings of a method to its last calls. *)
Ltac keeps_branches :=
  repeat match goal with
         | |- keeps (if ?c then _ else _) _ => destruct c
         | |- keeps (index _ _ ≫= _) _ => apply keeps_index; intros ?
         end.

Lemma keeps_ParseCommand (user theCommand : string) (w : World) (b : Bot) :
  settings (bot w) = settings b -> keeps (ParseCommand user theCommand w) b.
Proof.
  intros H. unfold ParseCommand. keeps_branches; auto with keeps.
Qed.

#[local] Hint Resolve keeps_ParseCommand : keeps.

Lemma keeps_mainStep (line : string) (w : World) (b : Bot) :
  settings (bot w) = settings b -> keeps (mainStep line w) b.
Proof.
  intros H. unfold mainStep. keeps_branches; auto with keeps.
Qed.

Lemma keeps_consoleStep (text : string) (w : World) (b : Bot) :
  settings (bot w) = settings b -> keeps (consoleStep text w) b.
Proof.
  intros H. unfold consoleStep. keeps_branches; auto with keeps.
  apply keeps_bind; auto with keeps.
Qed.

Lemma keeps_react (e : event) (w : World) (b : Bot) :
  settings (bot w) = settings b -> keeps (react e w) b.
Proof.
  intros H. destruct e; cbn [react];
    [ now apply keeps_mainStep | now apply keeps_consoleStep
    | now apply keeps_Message | now apply keeps_Ok ].
Qed.

Lemma keeps_run (es : list event) (w : World) (b : Bot) :
  settings (bot w) = settings b -> keeps (run es w) b.
Proof.
  revert w. induction es as [|e es IH]; intros w H; cbn [run].
  - now apply keeps_Ok.
  - apply keeps_bind; [now apply keeps_react|]. intros w1 H1. now apply IH.
Qed.

Lemma configure_mods (chan nick auto : string) (count : Z) (b : Bot) :
  mods (configure chan nick auto count b) = mods b.
Proof. unfold configure. now destruct (String.eqb chan ""). Qed.

Lemma configure_hash_leads (chan nick auto : string) (count : Z) :
  hash_leads (channel (configure chan nick auto count NewBot)).
Proof.
  unfold configure. destruct (String.eqb chan "").
  - right. reflexivity.
  - left. cbn [channel]. change ("#" +:+ chan) with (String "#" chan).
    now rewrite HasPrefix_String, HasPrefix_empty.
Qed.

(** C10. [NewBot] creates the moderator set empty, and it is empty in every
    world the program reaches from [boot], whatever lines, console texts,
    timer rounds and delays come. So in all these worlds [isModerator] holds
    exactly of the channel identifier without its leading ['#'], and a
    command from any other issuer is answered with the rejection and nothing
    else. *)
Theorem only_the_owner_moderates
    (chan nick auto pass : string) (count t0 : Z) (es : list event) (w : World) :
  final (run es (boot chan nick auto count pass t0)) = Some w ->
  mods NewBot = ∅
  /\ mods (bot w) = ∅
  /\ hash_leads (channel (bot w))
  /\ (forall username,
        isModerator (bot w) username = true <-> username = ownerName (channel (bot w)))
  /\ (forall user theCommand,
        user <> ownerName (channel (bot w)) ->
        exists w1,
          ParseCommand user theCommand w = Ok w1
          /\ conn (bot w1)
             = conn (bot w)
               ++ [(due w, privmsg (bot w) ("You are not a mod " +:+ user))]).
Proof.
  intros Hrun.
  assert (Hset : settings (bot w) = settings (configure chan nick auto count NewBot)).
  { eapply keeps_run; [|exact Hrun]. reflexivity. }
  assert (Hmods : mods (bot w) = ∅).
  { rewrite (settings_mods _ _ Hset). apply configure_mods. }
  assert (Hchan : hash_leads (channel (bot w))).
  { rewrite (settings_channel _ _ Hset). apply configure_hash_leads. }
  assert (Hmod : forall username,
             isModerator (bot w) username = true <-> username = ownerName (channel (bot w))).
  { intros username. rewrite isModerator_true, Hmods, lookup_empty.
    unfold yourChannel. rewrite Replace1_hash_leads by assumption.
    split; [intros [H|H]; [discriminate|exact H]|now right]. }
  repeat split; try assumption; try apply Hmod.
  intros user theCommand Hne.
  assert (Hno : isModerator (bot w) user = false).
  { destruct (isModerator (bot w) user) eqn:H; [|reflexivity].
    now apply Hmod in H. }
  unfold ParseCommand. rewrite Hno.
  eexists. rewrite Message_due by discriminate. split; reflexivity.
Qed.

Lemma only_the_owner_moderates_witness :
  exists w,
    final (run [Line ":bob!bob@bob.tmi.twitch.tv PRIVMSG #ajs94 :!ban eve";
                Tick 7; Console "hello"; Timer]
               (boot "ajs94" "testbot" "hi" 1 "oauth:token" 100)) = Some w
    /\ mods (bot w) = ∅
    /\ (forall username,
          isModerator (bot w) username = true <-> username = ownerName (channel (bot w))).
Proof.
  eexists. split; [vm_compute; reflexivity|].
  match goal with
  | |- mods (bot ?w) = _ /\ _ =>
      destruct (only_the_owner_moderates "ajs94" "testbot" "hi" "oauth:token" 1 100
                  [Line ":bob!bob@bob.tmi.twitch.tv PRIVMSG #ajs94 :!ban eve";
                   Tick 7; Console "hello"; Timer] w)
        as (_ & H1 & _ & H2 & _)
  end.
  - vm_compute. reflexivity.
  - split; [exact H1|exact H2].
Defined.

(** ** The loop of [main], line by line *)

Lemma split_scan_head (sep s : string) (skip : nat) (cur : string) :
  exists x, split_scan sep s skip cur !! 0%nat = Some x.
Proof.
  revert skip cur. induction s as [|c s IH]; intros skip cur; cbn [split_scan].
  - now exists cur.
  - destruct skip; [|apply IH].
    destruct (HasPrefix (String c s) sep); [now exists cur|apply IH].
Qed.

Lemma Split_head (s : string) (c : ascii) (sep : string) :
  exists x, Split s (String c sep) !! 0%nat = Some x.
Proof. apply split_scan_head. Qed.

Lemma index_Some (l : list string) (i : nat) (x : string) :
  l !! i = Some x -> index l i = Ok x.
Proof. unfold index. now intros ->. Qed.

Lemma index_None (l : list string) (i : nat) :
  l !! i = None -> index l i = Panic.
Proof. unfold index. now intros ->. Qed.

(** A line that is no ping, join or part is looked at through its fourth
    token. *)
Lemma mainStep_other (line : string) (w : World) :
  Split line " " !! 0%nat <> Some "PING" ->
  Contains line (".tmi.twitch.tv JOIN " +:+ channel (bot w)) = false ->
  Contains line (".tmi.twitch.tv PART " +:+ channel (bot w)) = false ->
  mainStep line w
  = p3 ← index (Split line " ") 3;
    if HasPrefix p3 ":!" then
      let userdata := Split line (".tmi.twitch.tv PRIVMSG " +:+ channel (bot w)) in
      d0 ← index userdata 0;
      d1 ← index userdata 1;
      u1 ← index (Split d0 "@") 1;
      ParseCommand u1 (Replace1 d1 " :" "")
        (Printf (Replace1 d1 " :" "" +:+ LF) (Printf (u1 +:+ " ") w))
    else if isWebsite p3 then
      d0 ← index (Split line (".tmi.twitch.tv PRIVMSG " +:+ channel (bot w))) 0;
      u1 ← index (Split d0 "@") 1;
      timeout u1 w
    else Ok w.
Proof.
  intros Hping Hjoin Hpart. unfold mainStep.
  destruct (Split_head line " " "") as [p0 Hp0].
  rewrite (index_Some _ _ _ Hp0). cbn [mbind outcome_bind].
  replace (String.eqb p0 "PING") with false
    by (symmetry; apply String.eqb_neq; congruence).
  rewrite Hjoin, Hpart. reflexivity.
Qed.

(** What the loop does with a line that has none of the recognised shapes:
    with four tokens or more it drops the line. *)
Lemma unrecognized_long_line_dropped (line p3 : string) (w : World) :
  Split line " " !! 0%nat <> Some "PING" ->
  Contains line (".tmi.twitch.tv JOIN " +:+ channel (bot w)) = false ->
  Contains line (".tmi.twitch.tv PART " +:+ channel (bot w)) = false ->
  Split line " " !! 3%nat = Some p3 ->
  HasPrefix p3 ":!" = false ->
  isWebsite p3 = false ->
  mainStep line w = Ok w.
Proof.
  intros Hping Hjoin Hpart Hp3 Hcmd Hweb.
  rewrite mainStep_other by assumption.
  rewrite (index_Some _ _ _ Hp3). cbn [mbind outcome_bind].
  now rewrite Hcmd, Hweb.
Qed.

(** C1 fails on the code. A line that is no ping, join or part and has fewer
    than four tokens cannot be a command or a link either, and the claim has
    it dropped; the loop reads [msgParts[3]] all the same and the program
    panics. *)
Theorem unrecognized_short_line_panics (line : string) (w : World) :
  Split line " " !! 0%nat <> Some "PING" ->
  Contains line (".tmi.twitch.tv JOIN " +:+ channel (bot w)) = false ->
  Contains line (".tmi.twitch.tv PART " +:+ channel (bot w)) = false ->
  Split line " " !! 3%nat = None ->
  mainStep line w = Panic.
Proof.
  intros Hping Hjoin Hpart Hp3.
  rewrite mainStep_other by assumption.
  now rewrite (index_None _ _ Hp3).
Qed.

Lemma unrecognized_short_line_panics_witness :
  mainStep ":tmi.twitch.tv RECONNECT" (boot_default 100) = Panic.
Proof.
  apply (unrecognized_short_line_panics ":tmi.twitch.tv RECONNECT" (boot_default 100)).
  - vm_compute. discriminate.
  - vm_compute. reflexivity.
  - vm_compute. reflexivity.
  - vm_compute. reflexivity.
Defined.

Example empty_line_panics : mainStep "" (boot_default 100) = Panic.
Proof. reflexivity. Qed.

Example welcome_line_dropped :
  mainStep ":tmi.twitch.tv 001 testbot :Welcome, GLHF!" (boot_default 100)
  = Ok (boot_default 100).
Proof. reflexivity. Qed.

(** *** Pings *)

Lemma HasSuffix_last (s : string) (c d : ascii) :
  HasSuffix s (String c (String d "")) = true -> Contains s (String d "") = true.
Proof.
  induction s as [|a s IH]; cbn [HasSuffix Contains]; intros H;
    apply orb_true_iff in H as [H|H]; try discriminate.
  - apply String.eqb_eq in H. injection H as -> ->.
    apply orb_true_iff. right. cbn [Contains].
    now rewrite HasPrefix_String, Ascii.eqb_refl, HasPrefix_empty.
  - apply orb_true_iff. right. now apply IH.
Qed.

Lemma Contains_app_literal (a : ascii) (s sub : string) :
  HasPrefix (String a s) sub = false ->
  Contains (String a s) sub = Contains s sub.
Proof. intros H. cbn [Contains]. now rewrite H. Qed.

(** C4 fails on the code in its last part. For a line whose first token is
    [PING] and which has a second token, the loop writes once, directly on
    the connection and without touching [lastMsg]: the bytes are [PONG], a
    space and the token, and nothing after them. A token read from a line
    holds no line feed, so what is written does not end in carriage return and
    line feed, as the lines of the handshake and of [Message] do. *)
Theorem PING_reply_lacks_line_end (line token : string) (w : World) :
  Split line " " !! 0%nat = Some "PING" ->
  Split line " " !! 1%nat = Some token ->
  Contains token LF = false ->
  mainStep line w = Ok (send (Write ("PONG " +:+ token)) w)
  /\ conn (bot (send (Write ("PONG " +:+ token)) w))
     = conn (bot w) ++ [(now w, Write ("PONG " +:+ token))]
  /\ lastMsg (bot (send (Write ("PONG " +:+ token)) w)) = lastMsg (bot w)
  /\ HasSuffix ("PONG " +:+ token) CRLF = false.
Proof.
  intros Hp0 Hp1 Hlf. repeat split.
  - unfold mainStep. rewrite (index_Some _ _ _ Hp0). cbn [mbind outcome_bind].
    change (String.eqb "PING" "PING") with true. cbv iota.
    now rewrite (index_Some _ _ _ Hp1).
  - destruct (HasSuffix ("PONG " +:+ token) CRLF) eqn:H; [|reflexivity].
    apply HasSuffix_last in H. fold LF in H.
    change ("PONG " +:+ token)
      with (String "P" (String "O" (String "N" (String "G" (String " " token))))) in H.
    rewrite !Contains_app_literal in H by reflexivity. congruence.
Qed.

Lemma PING_reply_lacks_line_end_witness :
  mainStep "PING :tmi.twitch.tv" (boot_default 100)
  = Ok (send (Write "PONG :tmi.twitch.tv") (boot_default 100))
  /\ HasSuffix "PONG :tmi.twitch.tv" CRLF = false.
Proof.
  destruct (PING_reply_lacks_line_end "PING :tmi.twitch.tv" ":tmi.twitch.tv"
              (boot_default 100)) as (H1 & _ & _ & H2).
  - vm_compute. reflexivity.
  - vm_compute. reflexivity.
  - vm_compute. reflexivity.
  - split; [exact H1|exact H2].
Defined.

Example handshake_lines_end :
  forallb (fun x => HasSuffix (payload x.2) CRLF) (conn (bot (boot_default 100))) = true.
Proof. reflexivity. Qed.

Lemma append_assoc (s1 s2 s3 : string) :
  (s1 +:+ s2) +:+ s3 = s1 +:+ (s2 +:+ s3).
Proof.
  induction s1 as [|c s1 IH]; [reflexivity|].
  change (String c ((s1 +:+ s2) +:+ s3) = String c (s1 +:+ (s2 +:+ s3))).
  now f_equal.
Qed.

Example Message_line_ends (b : Bot) (message : string) :
  exists body, payload (privmsg b message) = body +:+ CRLF.
Proof.
  exists ("PRIVMSG " +:+ channel b +:+ " :" +:+ message).
  unfold privmsg, payload. now rewrite !append_assoc.
Qed.

(** On the connection the reply runs into the next line that is sent. *)
Example PONG_runs_into_next_line :
  exists w1,
    run [Line "PING :tmi.twitch.tv"; Line ":bob!bob@bob.tmi.twitch.tv JOIN #ajs94"]
        (boot_default 100) = Ok w1
    /\ stream (List.skipn 3 (conn (bot w1)))
       = "PONG :tmi.twitch.tvPRIVMSG #ajs94 :PogChamp User Joined: bob" +:+ CRLF.
Proof. eexists. split; reflexivity. Qed.

Example bare_PING_panics : mainStep "PING" (boot_default 100) = Panic.
Proof. reflexivity. Qed.

(** *** Commands without a target *)

(** C2 fails on the code. When a moderator or the owner issues a command
    whose keyword is recognised and which holds no space, [Split] returns one
    piece, [userinfo[1]] is out of range and the program panics: the command
    is not dropped. (The keyword is looked for in the lower-cased command;
    whichever of the three branches is taken reads [userinfo[1]].) *)
Theorem keyword_without_target_panics (user theCommand : string) (w : World) :
  isModerator (bot w) user = true ->
  recognised (ToLower theCommand) = true ->
  Split theCommand " " !! 1%nat = None ->
  ParseCommand user theCommand w = Panic.
Proof.
  intros Hmod Hkey Hnone. unfold ParseCommand. rewrite Hmod.
  cbv zeta. rewrite (index_None _ _ Hnone). cbn [mbind outcome_bind].
  unfold recognised in Hkey. revert Hkey.
  destruct (HasPrefix (ToLower theCommand) ":!timeout"
            || HasPrefix (ToLower theCommand) "!timeout"); [reflexivity|].
  destruct (HasPrefix (ToLower theCommand) ":!ban"
            || HasPrefix (ToLower theCommand) "!ban"); [reflexivity|].
  destruct (HasPrefix (ToLower theCommand) ":!unban"
            || HasPrefix (ToLower theCommand) "!unban"); [reflexivity|].
  discriminate.
Qed.

Lemma keyword_without_target_panics_witness :
  ParseCommand "ajs94" "!timeout" (boot_default 100) = Panic.
Proof.
  apply (keyword_without_target_panics "ajs94" "!timeout" (boot_default 100)).
  - vm_compute. reflexivity.
  - vm_compute. reflexivity.
  - vm_compute. reflexivity.
Defined.

(** The same command as it arrives from chat and from the console (where
    the text read ends with the line feed). *)
Example chat_keyword_without_target_panics :
  mainStep ":ajs94!ajs94@ajs94.tmi.twitch.tv PRIVMSG #ajs94 :!timeout"
           (boot_default 100) = Panic.
Proof. reflexivity. Qed.

Example console_keyword_without_target_panics :
  consoleStep ("!ban" +:+ LF) (boot_default 100) = Panic.
Proof. reflexivity. Qed.

(** With a space after the keyword and nothing else, the target is the empty
    string and the directive is sent. *)
Example keyword_with_empty_target :
  exists w1,
    ParseCommand "ajs94" "!timeout " (boot_default 100) = Ok w1
    /\ conn (bot w1)
       = conn (bot (boot_default 100))
         ++ [(100, privmsg (bot (boot_default 100)) "/timeout ");
             (105, privmsg (bot (boot_default 100)) "Timed out user: ")].
Proof. eexists. split; reflexivity. Qed.

(** An issuer without privilege is answered before the command is read. *)
Example keyword_without_target_from_stranger :
  exists w1,
    ParseCommand "bob" "!timeout" (boot_default 100) = Ok w1
    /\ conn (bot w1)
       = conn (bot (boot_default 100))
         ++ [(100, privmsg (bot (boot_default 100)) "You are not a mod bob")].
Proof. eexists. split; reflexivity. Qed.

(** *** Links *)

(** A chat line that is no command, with a link in its first word: the
    sender is handed to [timeout]. *)
Lemma link_in_first_word (line p3 : string) (w : World) :
  Split line " " !! 0%nat <> Some "PING" ->
  Contains line (".tmi.twitch.tv JOIN " +:+ channel (bot w)) = false ->
  Contains line (".tmi.twitch.tv PART " +:+ channel (bot w)) = false ->
  Split line " " !! 3%nat = Some p3 ->
  HasPrefix p3 ":!" = false ->
  isWebsite p3 = true ->
  mainStep line w
  = d0 ← index (Split line (".tmi.twitch.tv PRIVMSG " +:+ channel (bot w))) 0;
    u1 ← index (Split d0 "@") 1;
    timeout u1 w.
Proof.
  intros Hping Hjoin Hpart Hp3 Hcmd Hweb.
  rewrite mainStep_other by assumption.
  rewrite (index_Some _ _ _ Hp3). cbn [mbind outcome_bind].
  now rewrite Hcmd, Hweb.
Qed.

Example link_first_is_timed_out :
  mainStep ":user1!user1@user1.tmi.twitch.tv PRIVMSG #chan :spam.com is great"
           (boot "chan" "testbot" "hi" 1 "oauth:token" 100)
  = timeout "user1" (boot "chan" "testbot" "hi" 1 "oauth:token" 100).
Proof. reflexivity. Qed.

Example link_of_owner_is_let_through :
  mainStep ":chan!chan@chan.tmi.twitch.tv PRIVMSG #chan :spam.com is great"
           (boot "chan" "testbot" "hi" 1 "oauth:token" 100)
  = Ok (Printf "Unmod before punishing"
          (boot "chan" "testbot" "hi" 1 "oauth:token" 100)).
Proof. reflexivity. Qed.

(** C5 fails on the code. The body [check out spam.com] of this chat line,
    which is no command and comes from a sender without privilege, contains
    the suffix [.com]; [isWebsite] is given the fourth token of the line
    only, the first word of the body, finds no suffix in it, and the line is
    dropped: no timeout directive is sent. *)
Theorem link_after_first_word_is_missed :
  let w := boot "chan" "testbot" "hi" 1 "oauth:token" 100 in
  let line := ":user1!user1@user1.tmi.twitch.tv PRIVMSG #chan :check out spam.com" in
  Split line (".tmi.twitch.tv PRIVMSG " +:+ channel (bot w))
  = [":user1!user1@user1"; " :check out spam.com"]
  /\ isWebsite "check out spam.com" = true
  /\ isModerator (bot w) "user1" = false
  /\ Split line " " !! 3%nat = Some ":check"
  /\ isWebsite ":check" = false
  /\ mainStep line w = Ok w.
Proof. vm_compute. repeat split. Qed.


(** * Further properties *)

(** ** Splitting *)

Lemma append_empty_r (s : string) : s +:+ "" = s.
Proof.
  induction s as [|c s IH]; [reflexivity|].
  change (String c (s +:+ "") = String c s). now f_equal.
Qed.

Lemma append_String (c : ascii) (s t : string) :
  String c s +:+ t = String c (s +:+ t).
Proof. reflexivity. Qed.

Lemma HasPrefix_app (p s : string) : HasPrefix (p +:+ s) p = true.
Proof.
  induction p as [|c p IH]; [apply HasPrefix_empty|].
  now rewrite append_String, HasPrefix_String, Ascii.eqb_refl.
Qed.

Lemma HasPrefix_app_l (x a b : string) :
  HasPrefix x (a +:+ b) = true -> HasPrefix x a = true.
Proof.
  revert x. induction a as [|c a IH]; intros x H; [apply HasPrefix_empty|].
  destruct x as [|d x]; [discriminate|].
  rewrite append_String, HasPrefix_String in H.
  rewrite HasPrefix_String.
  apply andb_true_iff in H as [-> H]. now rewrite (IH _ H).
Qed.

Lemma HasPrefix_lacks (c a : ascii) (s sep : string) :
  Ascii.eqb c a = false -> HasPrefix (String a s) (String c sep) = false.
Proof. intros H. now rewrite HasPrefix_String, H. Qed.

Lemma lacks_String (c a : ascii) (s : string) :
  lacks c (String a s) <-> Ascii.eqb c a = false /\ lacks c s.
Proof.
  unfold lacks. cbn [Contains].
  rewrite HasPrefix_String, HasPrefix_empty, andb_true_r, orb_false_iff.
  reflexivity.
Qed.

Lemma lacks_app (c : ascii) (a b : string) :
  lacks c (a +:+ b) <-> lacks c a /\ lacks c b.
Proof.
  induction a as [|x a IH].
  - split; [intros H; split; [reflexivity|exact H]|now intros [_ H]].
  - rewrite append_String, !lacks_String, IH. tauto.
Qed.

(** Bytes that cannot start the separator go to the piece being read. *)
Lemma split_scan_lacks (c : ascii) (sep a s cur : string) :
  lacks c a ->
  split_scan (String c sep) (a +:+ s) 0 cur
  = split_scan (String c sep) s 0 (cur +:+ a).
Proof.
  revert cur. induction a as [|x a IH]; intros cur H.
  - now rewrite append_empty_r.
  - apply lacks_String in H as [Hx Ha].
    rewrite append_String. cbn [split_scan].
    rewrite (HasPrefix_lacks _ _ _ _ Hx), (IH _ Ha), append_assoc.
    reflexivity.
Qed.

(** The bytes of a matched separator are stepped over. *)
Lemma split_scan_skip (sep p s cur : string) :
  split_scan sep (p +:+ s) (String.length p) cur = split_scan sep s 0 cur.
Proof.
  induction p as [|x p IH]; [reflexivity|].
  rewrite append_String. cbn [String.length split_scan]. exact IH.
Qed.

Lemma split_scan_match (c : ascii) (sep s cur : string) :
  split_scan (String c sep) (String c sep +:+ s) 0 cur
  = cur :: split_scan (String c sep) s 0 "".
Proof.
  rewrite append_String. cbn [split_scan].
  rewrite <- append_String, HasPrefix_app. f_equal.
  replace (String.length (String c sep) - 1)%nat with (String.length sep)
    by (cbn [String.length]; lia).
  apply split_scan_skip.
Qed.

(** [Split] at the first separator, when the first byte of the separator
    does not occur before it. *)
Lemma Split_first (c : ascii) (sep a s : string) :
  lacks c a ->
  Split (a +:+ String c sep +:+ s) (String c sep)
  = a :: Split s (String c sep).
Proof.
  intros H. unfold Split.
  now rewrite (split_scan_lacks _ _ _ _ _ H), split_scan_match.
Qed.

(** Without the separator there is one piece. *)
Lemma split_scan_absent (sep s cur : string) :
  Contains s sep = false -> sep <> "" ->
  split_scan sep s 0 cur = [cur +:+ s].
Proof.
  intros H Hsep. revert cur H. induction s as [|x s IH]; intros cur H.
  - now rewrite append_empty_r.
  - cbn [Contains] in H. apply orb_false_iff in H as [H1 H2].
    cbn [split_scan]. rewrite H1, (IH _ H2), append_assoc. reflexivity.
Qed.

Lemma Split_absent (s : string) (c : ascii) (sep : string) :
  Contains s (String c sep) = false -> Split s (String c sep) = [s].
Proof. intros H. unfold Split. now rewrite split_scan_absent. Qed.

(** The first piece starts with what has been read and is a prefix of the
    whole. *)
Lemma split_scan_head_extends (sep s cur x : string) :
  split_scan sep s 0 cur !! 0%nat = Some x -> HasPrefix x cur = true.
Proof.
  revert cur. induction s as [|c s IH]; intros cur; cbn [split_scan].
  - intros [= <-]. rewrite <- (append_empty_r cur) at 1. apply HasPrefix_app.
  - destruct (HasPrefix (String c s) sep).
    + intros [= <-]. rewrite <- (append_empty_r cur) at 1. apply HasPrefix_app.
    + intros H. apply IH in H. now apply HasPrefix_app_l in H.
Qed.

Lemma split_scan_head_prefix (sep s cur x : string) :
  split_scan sep s 0 cur !! 0%nat = Some x -> HasPrefix (cur +:+ s) x = true.
Proof.
  revert cur. induction s as [|c s IH]; intros cur; cbn [split_scan].
  - intros [= <-]. apply HasPrefix_app.
  - destruct (HasPrefix (String c s) sep).
    + intros [= <-]. apply HasPrefix_app.
    + intros H. apply IH in H. now rewrite append_assoc in H.
Qed.

Lemma Contains_app_r (a s sub : string) :
  Contains s sub = true -> Contains (a +:+ s) sub = true.
Proof.
  intros H. induction a as [|x a IH]; [exact H|].
  rewrite append_String. cbn [Contains]. rewrite IH. apply orb_true_r.
Qed.

Lemma Contains_middle (a sep b : string) : Contains (a +:+ sep +:+ b) sep = true.
Proof.
  apply Contains_app_r. destruct sep as [|c sep].
  - change ("" +:+ b) with b. destruct b; cbn [Contains]; now rewrite HasPrefix_empty.
  - rewrite append_String. cbn [Contains].
    now rewrite <- append_String, HasPrefix_app.
Qed.

(** ** Well-formed lines from the server *)

Lemma sender_at (u : string) :
  sender u = (":" +:+ u +:+ "!" +:+ u) +:+ "@" +:+ u.
Proof. unfold sender. now rewrite !append_assoc. Qed.

Lemma sender_lacks (c : ascii) (u : string) :
  lacks c u -> Ascii.eqb c ":" = false -> Ascii.eqb c "!" = false ->
  Ascii.eqb c "@" = false -> lacks c (sender u).
Proof.
  intros Hu H1 H2 H3. unfold sender.
  repeat (rewrite ?append_String, ?lacks_String, ?lacks_app; split; try assumption);
    try reflexivity.
Qed.

(** The name that the loop takes from the prefix of a line. *)
Lemma sender_name (u : string) : login u -> Split (sender u) "@" = [":" +:+ u +:+ "!" +:+ u; u].
Proof.
  intros (_ & Hat & _). rewrite sender_at.
  rewrite (Split_first "@" "" (":" +:+ u +:+ "!" +:+ u) u).
  - now rewrite Split_absent.
  - repeat (rewrite ?append_String, ?lacks_String, ?lacks_app; split; try assumption);
      reflexivity.
Qed.

(** A line that begins with a colon is no ping. *)
Lemma colon_line_not_PING (rest : string) :
  Split (String ":" rest) " " !! 0%nat <> Some "PING".
Proof.
  intros H. apply split_scan_head_prefix in H.
  change ("" +:+ String ":" rest) with (String ":" rest) in H.
  rewrite HasPrefix_String in H. discriminate.
Qed.

(** X1. A join line as the server sends it, [:u!u@u.tmi.twitch.tv JOIN
    <channel>] for a login name [u], makes the loop greet exactly [u]: the
    result is that of [Message] with the greeting, whatever follows the
    channel on the line. *)
Theorem join_line_greets (u rest : string) (w : World) :
  login u ->
  mainStep (sender u +:+ (".tmi.twitch.tv JOIN " +:+ channel (bot w)) +:+ rest) w
  = Message ("PogChamp User Joined: " +:+ u) w.
Proof.
  intros Hu. pose proof Hu as (Hdot & Hat & Hsp).
  set (line := sender u +:+ (".tmi.twitch.tv JOIN " +:+ channel (bot w)) +:+ rest).
  assert (Hping : Split line " " !! 0%nat <> Some "PING")
    by apply (colon_line_not_PING
                ((u +:+ "!" +:+ u +:+ "@" +:+ u)
                 +:+ (".tmi.twitch.tv JOIN " +:+ channel (bot w)) +:+ rest)).
  unfold mainStep. fold line.
  destruct (Split_head line " " "") as [p0 Hp0].
  rewrite (index_Some _ _ _ Hp0). cbn [mbind outcome_bind].
  replace (String.eqb p0 "PING") with false
    by (symmetry; apply String.eqb_neq; congruence).
  unfold line at 1. rewrite Contains_middle.
  unfold line.
  change (".tmi.twitch.tv JOIN " +:+ channel (bot w))
    with (String "." ("tmi.twitch.tv JOIN " +:+ channel (bot w))).
  rewrite Split_first by (now apply sender_lacks).
  cbn [index lookup list_lookup mbind outcome_bind].
  now rewrite (sender_name u Hu).
Qed.

Lemma join_line_greets_witness :
  mainStep (sender "bob" +:+ (".tmi.twitch.tv JOIN " +:+ "#ajs94") +:+ "") (boot_default 100)
  = Message ("PogChamp User Joined: " +:+ "bob") (boot_default 100).
Proof.
  apply (join_line_greets "bob" "" (boot_default 100)).
  repeat split; reflexivity.
Defined.

(** X2. A part line [:u!u@u.tmi.twitch.tv PART <channel>] that does not
    also hold the join marker makes the loop announce that exactly [u]
    left. *)
Theorem part_line_announces (u rest : string) (w : World) :
  login u ->
  Contains (sender u +:+ (".tmi.twitch.tv PART " +:+ channel (bot w)) +:+ rest)
           (".tmi.twitch.tv JOIN " +:+ channel (bot w)) = false ->
  mainStep (sender u +:+ (".tmi.twitch.tv PART " +:+ channel (bot w)) +:+ rest) w
  = Message ("BibleThump User Left: " +:+ u) w.
Proof.
  intros Hu Hjoin. pose proof Hu as (Hdot & Hat & Hsp).
  set (line := sender u +:+ (".tmi.twitch.tv PART " +:+ channel (bot w)) +:+ rest) in *.
  assert (Hping : Split line " " !! 0%nat <> Some "PING")
    by apply (colon_line_not_PING
                ((u +:+ "!" +:+ u +:+ "@" +:+ u)
                 +:+ (".tmi.twitch.tv PART " +:+ channel (bot w)) +:+ rest)).
  unfold mainStep. fold line.
  destruct (Split_head line " " "") as [p0 Hp0].
  rewrite (index_Some _ _ _ Hp0). cbn [mbind outcome_bind].
  replace (String.eqb p0 "PING") with false
    by (symmetry; apply String.eqb_neq; congruence).
  rewrite Hjoin.
  unfold line at 1. rewrite Contains_middle.
  unfold line.
  change (".tmi.twitch.tv PART " +:+ channel (bot w))
    with (String "." ("tmi.twitch.tv PART " +:+ channel (bot w))).
  rewrite Split_first by (now apply sender_lacks).
  cbn [index lookup list_lookup mbind outcome_bind].
  now rewrite (sender_name u Hu).
Qed.

Lemma part_line_announces_witness :
  mainStep (sender "bob" +:+ (".tmi.twitch.tv PART " +:+ "#ajs94") +:+ "") (boot_default 100)
  = Message ("BibleThump User Left: " +:+ "bob") (boot_default 100).
Proof.
  apply (part_line_announces "bob" "" (boot_default 100)).
  - repeat split; reflexivity.
  - reflexivity.
Defined.

(** X3. A line that holds the join marker with no at sign before it (and no
    dot, so that the marker found is the first) is taken for a join, and
    reading the name after the at sign, [userinfo[1]], panics. *)
Theorem join_line_without_at_panics (pre rest : string) (w : World) :
  Split (pre +:+ (".tmi.twitch.tv JOIN " +:+ channel (bot w)) +:+ rest) " " !! 0%nat
    <> Some "PING" ->
  lacks "." pre -> lacks "@" pre ->
  mainStep (pre +:+ (".tmi.twitch.tv JOIN " +:+ channel (bot w)) +:+ rest) w = Panic.
Proof.
  intros Hping Hdot Hat.
  set (line := pre +:+ (".tmi.twitch.tv JOIN " +:+ channel (bot w)) +:+ rest) in *.
  unfold mainStep. fold line.
  destruct (Split_head line " " "") as [p0 Hp0].
  rewrite (index_Some _ _ _ Hp0). cbn [mbind outcome_bind].
  replace (String.eqb p0 "PING") with false
    by (symmetry; apply String.eqb_neq; congruence).
  unfold line at 1. rewrite Contains_middle.
  unfold line.
  change (".tmi.twitch.tv JOIN " +:+ channel (bot w))
    with (String "." ("tmi.twitch.tv JOIN " +:+ channel (bot w))).
  rewrite Split_first by assumption.
  cbn [index lookup list_lookup mbind outcome_bind].
  now rewrite (Split_absent pre "@" "" Hat).
Qed.

Lemma join_line_without_at_panics_witness :
  mainStep ("bob" +:+ (".tmi.twitch.tv JOIN " +:+ "#ajs94") +:+ "") (boot_default 100)
  = Panic.
Proof.
  apply (join_line_without_at_panics "bob" "" (boot_default 100)).
  - vm_compute. discriminate.
  - reflexivity.
  - reflexivity.
Defined.

(** ** Chat lines *)

Lemma chatLine_tokens (u chan body : string) :
  login u -> lacks " " chan ->
  Split (chatLine u chan body) " "
  = (sender u +:+ ".tmi.twitch.tv") :: "PRIVMSG" :: chan :: Split (":" +:+ body) " ".
Proof.
  intros (Hdot & Hat & Hsp) Hchan.
  assert (chatLine u chan body
          = (sender u +:+ ".tmi.twitch.tv") +:+ " "
            +:+ ("PRIVMSG" +:+ " " +:+ (chan +:+ " " +:+ (":" +:+ body)))) as ->.
  { unfold chatLine. rewrite !append_assoc. reflexivity. }
  rewrite (Split_first " " "").
  2:{ apply lacks_app. split; [now apply sender_lacks|reflexivity]. }
  rewrite (Split_first " " "") by reflexivity.
  now rewrite (Split_first " " "") by assumption.
Qed.

Lemma chatLine_userdata (u chan body : string) :
  login u ->
  Split (chatLine u chan body) (".tmi.twitch.tv PRIVMSG " +:+ chan)
  = sender u :: Split (" :" +:+ body) (".tmi.twitch.tv PRIVMSG " +:+ chan).
Proof.
  intros (Hdot & Hat & Hsp). unfold chatLine.
  change (".tmi.twitch.tv PRIVMSG " +:+ chan)
    with (String "." ("tmi.twitch.tv PRIVMSG " +:+ chan)).
  now rewrite Split_first by (now apply sender_lacks).
Qed.

Lemma chatLine_not_PING (u chan body : string) :
  Split (chatLine u chan body) " " !! 0%nat <> Some "PING".
Proof.
  apply (colon_line_not_PING
           ((u +:+ "!" +:+ u +:+ "@" +:+ u)
            +:+ (".tmi.twitch.tv PRIVMSG " +:+ chan) +:+ " :" +:+ body)).
Qed.

Lemma drop_app (p s : string) : GoStrings.drop (String.length p) (p +:+ s) = s.
Proof. induction p as [|c p IH]; [reflexivity|exact IH]. Qed.

(** Taking the envelope off a body gives the body back. *)
Lemma Replace1_prefix (c : ascii) (old s new : string) :
  Replace1 (String c old +:+ s) (String c old) new = new +:+ s.
Proof.
  rewrite append_String. cbn [Replace1].
  rewrite <- append_String, HasPrefix_app. now rewrite drop_app.
Qed.

Lemma index_fourth (a b c : string) (l : list string) :
  index (a :: b :: c :: l) 3 = index l 0.
Proof. reflexivity. Qed.

Lemma first_word_bang (body : string) :
  HasPrefix body "!" = true ->
  exists x, Split (":" +:+ body) " " !! 0%nat = Some x /\ HasPrefix x ":!" = true.
Proof.
  destruct body as [|c b]; [discriminate|].
  rewrite HasPrefix_String, HasPrefix_empty, andb_true_r.
  intros H. apply Ascii.eqb_eq in H as <-.
  unfold Split.
  change (":" +:+ String "!" b) with (":!" +:+ b).
  rewrite (split_scan_lacks " " "" ":!" b "") by reflexivity.
  destruct (split_scan_head " " b 0 ("" +:+ ":!")) as [x Hx].
  exists x. split; [exact Hx|]. now apply split_scan_head_extends in Hx.
Qed.

Lemma first_word (word rest : string) :
  lacks " " word -> ends_word rest ->
  Split (":" +:+ word +:+ rest) " " !! 0%nat = Some (":" +:+ word).
Proof.
  intros Hw [->|[more ->]].
  - rewrite append_empty_r, Split_absent; [reflexivity|].
    apply (proj2 (lacks_String " " ":" word)). now split.
  - rewrite <- append_assoc, (Split_first " " ""); [reflexivity|].
    apply (proj2 (lacks_String " " ":" word)). now split.
Qed.

(** X4. A chat line [:u!u@u.tmi.twitch.tv PRIVMSG <channel> :<body>] whose
    body begins with an exclamation mark reaches [ParseCommand] with the
    sender's name and the body as it was sent, the envelope taken off,
    provided the line holds neither the join nor the part marker and the
    body does not repeat the chat marker. *)
Theorem chat_command_reaches_ParseCommand (u body : string) (w : World) :
  login u ->
  lacks " " (channel (bot w)) ->
  HasPrefix body "!" = true ->
  Contains (chatLine u (channel (bot w)) body)
           (".tmi.twitch.tv JOIN " +:+ channel (bot w)) = false ->
  Contains (chatLine u (channel (bot w)) body)
           (".tmi.twitch.tv PART " +:+ channel (bot w)) = false ->
  Contains body (".tmi.twitch.tv PRIVMSG " +:+ channel (bot w)) = false ->
  mainStep (chatLine u (channel (bot w)) body) w
  = ParseCommand u body (Printf (body +:+ LF) (Printf (u +:+ " ") w)).
Proof.
  intros Hu Hchan Hbang Hjoin Hpart Hbody.
  rewrite mainStep_other by (assumption || apply chatLine_not_PING).
  rewrite chatLine_tokens by assumption.
  destruct (first_word_bang body Hbang) as (x & Hx & Hpre).
  rewrite index_fourth, (index_Some _ _ _ Hx).
  cbn [mbind outcome_bind]. rewrite Hpre.
  cbv zeta. rewrite chatLine_userdata by assumption.
  change (".tmi.twitch.tv PRIVMSG " +:+ channel (bot w))
    with (String "." ("tmi.twitch.tv PRIVMSG " +:+ channel (bot w))) in Hbody |- *.
  rewrite Split_absent.
  2:{ change (" :" +:+ body) with (String " " (String ":" body)).
      cbn [Contains]. rewrite Hbody.
      now rewrite !HasPrefix_lacks by reflexivity. }
  cbn [index lookup list_lookup mbind outcome_bind].
  rewrite (sender_name u Hu). cbn [lookup list_lookup mbind outcome_bind].
  now rewrite (Replace1_prefix " " ":" body "").
Qed.

Lemma chat_command_reaches_ParseCommand_witness :
  mainStep (chatLine "ajs94" "#ajs94" "!Ban eve") (boot_default 100)
  = ParseCommand "ajs94" "!Ban eve"
      (Printf ("!Ban eve" +:+ LF) (Printf ("ajs94" +:+ " ") (boot_default 100))).
Proof.
  apply (chat_command_reaches_ParseCommand "ajs94" "!Ban eve" (boot_default 100));
    try reflexivity.
  repeat split; reflexivity.
Defined.

Lemma isWebsite_String (c : ascii) (s : string) :
  isWebsite s = true -> isWebsite (String c s) = true.
Proof.
  unfold isWebsite. rewrite !existsb_exists.
  intros (suffix & Hin & H). exists suffix. split; [exact Hin|].
  cbn [Contains]. rewrite H. apply orb_true_r.
Qed.

(** X5. A chat line whose body is no command and whose first word holds one
    of the suffixes hands exactly the sender to [timeout], whatever follows
    the first word, provided the line holds neither the join nor the part
    marker. *)
Theorem chat_link_times_out_sender (u word rest : string) (w : World) :
  login u ->
  lacks " " (channel (bot w)) ->
  lacks " " word -> ends_word rest ->
  HasPrefix word "!" = false ->
  isWebsite word = true ->
  Contains (chatLine u (channel (bot w)) (word +:+ rest))
           (".tmi.twitch.tv JOIN " +:+ channel (bot w)) = false ->
  Contains (chatLine u (channel (bot w)) (word +:+ rest))
           (".tmi.twitch.tv PART " +:+ channel (bot w)) = false ->
  mainStep (chatLine u (channel (bot w)) (word +:+ rest)) w = timeout u w.
Proof.
  intros Hu Hchan Hword Hrest Hbang Hweb Hjoin Hpart.
  rewrite mainStep_other by (assumption || apply chatLine_not_PING).
  rewrite chatLine_tokens by assumption.
  rewrite index_fourth, (index_Some _ _ _ (first_word word rest Hword Hrest)).
  cbn [mbind outcome_bind].
  change (":" +:+ word) with (String ":" word).
  rewrite HasPrefix_String, Hbang, andb_false_r, (isWebsite_String _ _ Hweb).
  rewrite chatLine_userdata by assumption.
  cbn [index lookup list_lookup mbind outcome_bind].
  now rewrite (sender_name u Hu).
Qed.

Lemma chat_link_times_out_sender_witness :
  mainStep (chatLine "user1" "#ajs94" ("spam.com" +:+ " is great")) (boot_default 100)
  = timeout "user1" (boot_default 100).
Proof.
  apply (chat_link_times_out_sender "user1" "spam.com" " is great" (boot_default 100));
    try reflexivity.
  - repeat split; reflexivity.
  - right. now exists "is great".
Defined.

(** ** Dispatch of commands *)

(** Two prefixes of one string: one is a prefix of the other. *)
Lemma HasPrefix_clash (s p q : string) :
  HasPrefix s p = true -> HasPrefix s q = true ->
  HasPrefix p q = true \/ HasPrefix q p = true.
Proof.
  revert p q. induction s as [|c s IH]; intros p q Hp Hq.
  - destruct p; [|discriminate]. right. apply HasPrefix_empty.
  - destruct p as [|a p]; [right; apply HasPrefix_empty|].
    destruct q as [|b q]; [left; apply HasPrefix_empty|].
    rewrite !HasPrefix_String in *.
    apply andb_true_iff in Hp as [Ha Hp]. apply andb_true_iff in Hq as [Hb Hq].
    apply Ascii.eqb_eq in Ha, Hb. subst a b. rewrite !Ascii.eqb_refl. cbn [andb].
    now apply IH.
Qed.

Lemma prefix_other (s p q : string) :
  HasPrefix s p = true -> HasPrefix p q = false -> HasPrefix q p = false ->
  HasPrefix s q = false.
Proof.
  intros Hp H1 H2. destruct (HasPrefix s q) eqn:Hq; [|reflexivity].
  destruct (HasPrefix_clash s p q Hp Hq); congruence.
Qed.

(** Settles the tests of [ParseCommand] from the one that is known. *)
Ltac settle_keywords H :=
  repeat first
    [ rewrite H
    | rewrite (prefix_other _ _ ":!timeout" H) by reflexivity
    | rewrite (prefix_other _ _ "!timeout" H) by reflexivity
    | rewrite (prefix_other _ _ ":!ban" H) by reflexivity
    | rewrite (prefix_other _ _ "!ban" H) by reflexivity
    | rewrite (prefix_other _ _ ":!unban" H) by reflexivity
    | rewrite (prefix_other _ _ "!unban" H) by reflexivity ].

Lemma ParseCommand_keyword (a : action) (user text target : string) (w : World) :
  isModerator (bot w) user = true ->
  HasPrefix (ToLower text) (keyword a) = true
  \/ HasPrefix (ToLower text) (":" +:+ keyword a) = true ->
  Split text " " !! 1%nat = Some target ->
  ParseCommand user text w = perform a target w.
Proof.
  intros Hmod Hkey Htarget. unfold ParseCommand. rewrite Hmod. cbv zeta.
  rewrite (index_Some _ _ _ Htarget). cbn [mbind outcome_bind].
  destruct a, Hkey as [H|H];
    match type of H with
    | HasPrefix _ ?k = true => let k' := eval vm_compute in k in change k with k' in H
    end;
    settle_keywords H; cbn [orb perform]; reflexivity.
Qed.

(** X6. For an issuer with privilege, a command whose lower-cased text
    begins with the keyword of an action, with or without a colon before it,
    carries that action out on the second space-separated piece of the text
    as it was typed: the keyword is matched without regard to case and as a
    prefix only, the target keeps its case, and whatever follows the target
    is ignored. *)
Theorem ParseCommand_dispatch (a : action) (user text target : string) (w : World) :
  isModerator (bot w) user = true ->
  HasPrefix (ToLower text) (keyword a) = true
  \/ HasPrefix (ToLower text) (":" +:+ keyword a) = true ->
  Split text " " !! 1%nat = Some target ->
  ParseCommand user text w = perform a target w.
Proof. apply ParseCommand_keyword. Qed.

Lemma ParseCommand_dispatch_witness :
  ParseCommand "ajs94" "!BANish Eve now" (boot_default 100)
  = perform Ban "Eve" (boot_default 100).
Proof.
  apply (ParseCommand_dispatch Ban "ajs94" "!BANish Eve now" "Eve" (boot_default 100)).
  - reflexivity.
  - left. reflexivity.
  - reflexivity.
Defined.

(** ** The console *)

Lemma owner_is_moderator (b : Bot) : isModerator b (yourChannel b) = true.
Proof. apply isModerator_true. now right. Qed.

Lemma ToLower_app (s t : string) : ToLower (s +:+ t) = ToLower s +:+ ToLower t.
Proof.
  induction s as [|c s IH]; [reflexivity|].
  rewrite append_String. cbn [ToLower]. now rewrite IH.
Qed.

Lemma HasPrefix_app_weaken (s t p : string) :
  HasPrefix s p = true -> HasPrefix (s +:+ t) p = true.
Proof.
  revert s. induction p as [|a p IH]; intros s H; [apply HasPrefix_empty|].
  destruct s as [|c s]; [discriminate|].
  rewrite append_String. rewrite HasPrefix_String in *.
  apply andb_true_iff in H as [-> H]. now rewrite (IH _ H).
Qed.

Lemma HasPrefix_ToLower (s p : string) :
  HasPrefix s p = true -> HasPrefix (ToLower s) (ToLower p) = true.
Proof.
  revert s. induction p as [|a p IH]; intros s H; [apply HasPrefix_empty|].
  destruct s as [|c s]; [discriminate|].
  cbn [ToLower]. rewrite HasPrefix_String in *.
  apply andb_true_iff in H as [Ha H]. apply Ascii.eqb_eq in Ha as ->.
  now rewrite Ascii.eqb_refl, (IH _ H).
Qed.

Lemma lower_byte_bang (c : ascii) : lower_byte c = "!"%char -> c = "!"%char.
Proof.
  destruct c as [[] [] [] [] [] [] [] []]; vm_compute; congruence.
Qed.

Lemma keyword_starts_with_bang (a : action) (s : string) :
  HasPrefix (ToLower s) (keyword a) = true -> HasPrefix s "!" = true.
Proof.
  destruct s as [|c s]; [destruct a; discriminate|].
  cbn [ToLower]. intros H.
  assert (Hc : lower_byte c = "!"%char).
  { destruct a; cbn [keyword] in H; rewrite HasPrefix_String in H;
      apply andb_true_iff in H as [H _]; apply Ascii.eqb_eq in H; now symmetry. }
  rewrite (lower_byte_bang c Hc). now rewrite HasPrefix_String, HasPrefix_empty.
Qed.

Lemma keyword_is_not_quit (a : action) (s : string) :
  HasPrefix (ToLower s) (keyword a) = true -> HasPrefix s "!quit" = false.
Proof.
  intros H. destruct (HasPrefix s "!quit") eqn:Hq; [|reflexivity].
  apply HasPrefix_ToLower in Hq. change (ToLower "!quit") with "!quit" in Hq.
  destruct (HasPrefix_clash _ _ _ H Hq) as [X|X]; destruct a; discriminate X.
Qed.

(** X7. At the console a moderation command is never refused for lack of
    privilege, since it is issued in the owner's name; and because the text
    read from the console ends with its line feed, the target that the
    action gets is the typed name with the line feed after it. *)
Theorem console_command_target (a : action) (k target : string) (w : World) :
  lacks " " k -> lacks " " target ->
  HasPrefix (ToLower k) (keyword a) = true ->
  consoleStep (k +:+ " " +:+ target +:+ LF) w = perform a (target +:+ LF) w.
Proof.
  intros Hk Htarget Hkey.
  assert (Hlow : HasPrefix (ToLower (k +:+ " " +:+ target +:+ LF)) (keyword a) = true)
    by (rewrite ToLower_app; now apply HasPrefix_app_weaken).
  unfold consoleStep.
  rewrite (keyword_is_not_quit a _ Hlow), (keyword_starts_with_bang a _ Hlow).
  apply (ParseCommand_keyword a).
  - apply owner_is_moderator.
  - now left.
  - rewrite (Split_first " " "") by assumption.
    rewrite Split_absent; [reflexivity|].
    apply lacks_app. split; [assumption|reflexivity].
Qed.

Lemma console_command_target_witness :
  consoleStep ("!ban" +:+ " " +:+ "eve" +:+ LF) (boot_default 100)
  = perform Ban ("eve" +:+ LF) (boot_default 100).
Proof.
  apply (console_command_target Ban "!ban" "eve" (boot_default 100)); reflexivity.
Defined.

(** X8. Any console text that begins with [!quit] ends the program, after
    the farewell has been sent through [Message] as the only line added to
    the connection; the text is never taken for a command. *)
Theorem console_quit (text : string) (w : World) :
  HasPrefix text "!quit" = true ->
  exists w1,
    consoleStep text w = Exit w1
    /\ conn (bot w1) = conn (bot w) ++ [(due w, privmsg (bot w) "Shutting down bot :(")]
    /\ settings (bot w1) = settings (bot w).
Proof.
  intros H. unfold consoleStep. rewrite H.
  rewrite Message_due by discriminate. cbn [mbind outcome_bind].
  eexists. repeat split.
Qed.

Lemma console_quit_witness :
  exists w1,
    consoleStep ("!quit now" +:+ LF) (boot_default 100) = Exit w1
    /\ conn (bot w1)
       = conn (bot (boot_default 100))
         ++ [(due (boot_default 100), privmsg (bot (boot_default 100)) "Shutting down bot :(")]
    /\ settings (bot w1) = settings (bot (boot_default 100)).
Proof.
  apply (console_quit ("!quit now" +:+ LF) (boot_default 100)). reflexivity.
Defined.

(** ** Connecting *)

Lemma ConnectAfter_bot (failures : nat) (w : World) :
  bot (ConnectAfter failures w) = bot w /\
  now (ConnectAfter failures w) = now w + 10 * Z.of_nat failures.
Proof.
  revert w. induction failures as [|k IH]; intros w; cbn [ConnectAfter].
  - cbn. split; [reflexivity|lia].
  - cbv zeta. destruct (IH (Sleep 10 (Printf "Cannot connect to Twitch servers"
                  (Printf ("Connecting to Twitch server" +:+ LF) w)))) as [Hb Hn].
    cbn [Printf bot now]. rewrite Hb, Hn. cbn. split; [reflexivity|lia].
Qed.

(** X9. When the dial fails [failures] times and then succeeds, [Connect]
    returns with the bot as it was and the clock ten seconds on for every
    failure; it has printed the failure once per failed dial, and that it is
    connected once per call of [Connect], that is once more than there were
    failures. *)
Theorem Connect_after_failures (failures : nat) (w : World) :
  bot (ConnectAfter failures w) = bot w
  /\ now (ConnectAfter failures w) = now w + 10 * Z.of_nat failures
  /\ stdout (ConnectAfter failures w)
     = stdout w
       ++ concat (replicate failures
                    ["Connecting to Twitch server" +:+ LF;
                     "Cannot connect to Twitch servers"])
       ++ ["Connecting to Twitch server" +:+ LF]
       ++ replicate (S failures) ("Connected to " +:+ server (bot w) +:+ LF)
  /\ ConnectAfter 0 w = Connect w.
Proof.
  destruct (ConnectAfter_bot failures w) as [Hb Hn].
  split; [exact Hb|]. split; [exact Hn|]. split; [|reflexivity].
  revert w Hb Hn. induction failures as [|k IH]; intros w Hb Hn; cbn [ConnectAfter].
  - cbn. now rewrite <- app_assoc.
  - cbv zeta.
    set (w0 := Sleep 10 (Printf "Cannot connect to Twitch servers"
                 (Printf ("Connecting to Twitch server" +:+ LF) w))).
    destruct (ConnectAfter_bot k w0) as [Hb0 Hn0].
    cbn [Printf stdout bot]. rewrite (IH w0 Hb0 Hn0), Hb0.
    subst w0. cbn [Sleep Printf stdout bot].
    rewrite (replicate_S_end (S k)). cbn [replicate concat].
    rewrite <- !app_assoc. cbn [app]. reflexivity.
Qed.

(** ** The link filter *)

(** X10. [isWebsite] holds of every string in which one of its suffixes
    occurs, at the end or anywhere else. *)
Theorem isWebsite_anywhere (before suffix after : string) :
  In suffix suffixes -> isWebsite (before +:+ suffix +:+ after) = true.
Proof.
  intros Hin. unfold isWebsite. apply existsb_exists.
  exists suffix. split; [exact Hin|apply Contains_middle].
Qed.

Lemma isWebsite_anywhere_witness : isWebsite ("my" +:+ ".com" +:+ "munity") = true.
Proof. apply (isWebsite_anywhere "my" ".com" "munity"). left. reflexivity. Defined.

(** ** The sender over a whole run *)

Lemma follows_refl (w : World) : follows w w.
Proof.
  split; [reflexivity|]. split; [lia|].
  split; [exists []; now rewrite app_nil_r|tauto].
Qed.

Lemma follows_trans (w w1 w2 : World) :
  follows w w1 -> follows w1 w2 -> follows w w2.
Proof.
  intros (Hs1 & Hn1 & [m1 Hc1] & Hp1) (Hs2 & Hn2 & [m2 Hc2] & Hp2).
  pose proof (settings_maxMsgTime _ _ Hs1) as HM.
  split; [congruence|]. split; [lia|]. split.
  - exists (m1 ++ m2). now rewrite Hc2, Hc1, app_assoc.
  - intros Hbound Hpaced. apply Hp2; [rewrite HM; lia|].
    apply Hp1; [lia|exact Hpaced].
Qed.

Lemma follows_Printf (format : string) (w : World) : follows w (Printf format w).
Proof.
  split; [reflexivity|]. split; [cbn; lia|].
  split; [exists []; cbn; now rewrite app_nil_r|]. intros _ H. exact H.
Qed.

Lemma follows_Sleep (d : Z) (w : World) : follows w (Sleep d w).
Proof.
  split; [reflexivity|]. split; [cbn; lia|]. split.
  - exists []. cbn. now rewrite app_nil_r.
  - intros _ (HM & Hl & Hsp & Hall). repeat split; cbn in *; try assumption; lia.
Qed.

Lemma chat_times_app (c1 c2 : list (Z * write)) :
  chat_times (c1 ++ c2) = chat_times c1 ++ chat_times c2.
Proof. apply omap_app. Qed.

(** A direct write, as the reply to a ping, is no chat line. *)
Lemma follows_Write (bytes : string) (w : World) : follows w (send (Write bytes) w).
Proof.
  split; [reflexivity|]. split; [cbn; lia|]. split; [now eexists|].
  intros _ (HM & Hl & Hsp & Hall).
  unfold paced. cbn [send bot with_conn conn maxMsgTime lastMsg now].
  rewrite chat_times_app. cbn. rewrite app_nil_r. now repeat split.
Qed.

Lemma spaced_snoc (gap t : Z) (ts : list Z) :
  spaced gap ts -> Forall (fun x => x + gap <= t) ts -> spaced gap (ts ++ [t]).
Proof.
  induction ts as [|a ts IH]; intros Hsp Hall; [cbn; tauto|].
  apply Forall_cons in Hall as [Ha Hall]. destruct Hsp as [Hhead Hsp].
  change (match ts ++ [t] with [] => True | t2 :: _ => a + gap <= t2 end
          /\ spaced gap (ts ++ [t])).
  split; [|now apply IH].
  destruct ts; [exact Ha|exact Hhead].
Qed.

Lemma follows_Message (message : string) (w w1 : World) :
  Message message w = Ok w1 -> follows w w1.
Proof.
  destruct (String.eqb_spec message "") as [->|Hne].
  { unfold Message. rewrite MessageN_empty. intros [= <-]. apply follows_refl. }
  rewrite Message_due by assumption. intros [= <-].
  destruct (due_bounds w) as (Hnow & Hdue & _).
  split; [reflexivity|]. split; [exact Hnow|]. split; [now eexists|].
  cbn [transmit stamp send Printf at_time bot now with_lastMsg with_conn maxMsgTime].
  intros Hbound (HM & Hl & Hsp & Hall).
  rewrite add64_small in Hdue by lia.
  unfold paced.
  cbn [transmit stamp send Printf at_time bot now with_lastMsg with_conn
       maxMsgTime lastMsg conn].
  rewrite chat_times_app. cbn [chat_times omap privmsg snd fst].
  change (omap _ [(due w, Fprintf _)]) with [due w].
  split; [exact HM|]. split; [lia|]. split.
  - apply spaced_snoc; [exact Hsp|].
    eapply Forall_impl; [exact Hall|]. cbn. intros; lia.
  - apply Forall_app. split; [|constructor; [cbn; lia|constructor]].
    eapply Forall_impl; [exact Hall|]. cbn. intros; lia.
Qed.

Lemma orderly_Ok (w w1 : World) : follows w w1 -> orderly w (Ok w1).
Proof. intros H ? [= <-]. exact H. Qed.

Lemma orderly_Exit (w w1 : World) : follows w w1 -> orderly w (Exit w1).
Proof. intros H ? [= <-]. exact H. Qed.

Lemma orderly_after (w w0 : World) (o : outcome World) :
  follows w w0 -> orderly w0 o -> orderly w o.
Proof. intros H Ho w1 Hw1. eapply follows_trans; [exact H|now apply Ho]. Qed.

Lemma orderly_bind (w : World) (m : outcome World) (f : World -> outcome World) :
  orderly w m -> (forall w0, orderly w0 (f w0)) -> orderly w (m ≫= f).
Proof.
  intros Hm Hf. destruct m as [w0| |w0|]; cbn [mbind outcome_bind].
  - eapply orderly_after; [now apply Hm|apply Hf].
  - intros ? [=].
  - exact Hm.
  - intros ? [=].
Qed.

Lemma orderly_index (w : World) (l : list string) (i : nat) (f : string -> outcome World) :
  (forall x, orderly w (f x)) -> orderly w (index l i ≫= f).
Proof.
  intros Hf. unfold index. destruct (l !! i); cbn [mbind outcome_bind].
  - apply Hf.
  - intros ? [=].
Qed.

Lemma orderly_Message (message : string) (w : World) : orderly w (Message message w).
Proof.
  intros w1 Hw1. destruct (Message message w) as [w2| | |] eqn:HM; try discriminate.
  - injection Hw1 as <-. now apply follows_Message in HM.
  - destruct (Message_total message w) as [w3 Hw3]. congruence.
Qed.

Lemma orderly_perform (a : action) (username : string) (w : World) :
  orderly w (perform a username w).
Proof.
  rewrite perform_unfold. destruct (isModerator (bot w) username).
  - apply orderly_Ok, follows_Printf.
  - cbn [submit]. apply orderly_bind; [apply orderly_Message|].
    intros w0. apply orderly_bind; [apply orderly_Message|].
    intros w2. apply orderly_Ok, follows_refl.
Qed.

Lemma orderly_ParseCommand (user theCommand : string) (w : World) :
  orderly w (ParseCommand user theCommand w).
Proof.
  unfold ParseCommand.
  repeat match goal with
         | |- orderly _ (if ?c then _ else _) => destruct c
         | |- orderly _ (index _ _ ≫= _) => apply orderly_index; intros ?
         end.
  - apply (orderly_perform Timeout).
  - apply (orderly_perform Ban).
  - apply (orderly_perform Unban).
  - apply orderly_Ok, follows_refl.
  - apply orderly_Message.
Qed.

Lemma orderly_mainStep (line : string) (w : World) : orderly w (mainStep line w).
Proof.
  unfold mainStep.
  repeat match goal with
         | |- orderly _ (if ?c then _ else _) => destruct c
         | |- orderly _ (index _ _ ≫= _) => apply orderly_index; intros ?
         end.
  - apply orderly_Ok, follows_Write.
  - apply orderly_Message.
  - apply orderly_Message.
  - eapply orderly_after; [|apply orderly_ParseCommand].
    eapply follows_trans; apply follows_Printf.
  - apply (orderly_perform Timeout).
  - apply orderly_Ok, follows_refl.
Qed.

Lemma orderly_consoleStep (text : string) (w : World) : orderly w (consoleStep text w).
Proof.
  unfold consoleStep.
  repeat match goal with
         | |- orderly _ (if ?c then _ else _) => destruct c
         end.
  - apply orderly_bind; [apply orderly_Message|].
    intros w0. apply orderly_Exit, follows_refl.
  - apply orderly_ParseCommand.
  - apply orderly_Message.
  - apply orderly_Ok, follows_refl.
Qed.

Lemma orderly_automessageStep (w : World) : orderly w (automessageStep w).
Proof.
  unfold automessageStep.
  eapply orderly_after; [apply follows_Sleep|apply orderly_Message].
Qed.

Lemma orderly_react (e : event) (w : World) : orderly w (react e w).
Proof.
  destruct e; cbn [react].
  - apply orderly_mainStep.
  - apply orderly_consoleStep.
  - apply orderly_automessageStep.
  - apply orderly_Ok, follows_Sleep.
Qed.

Lemma orderly_run (es : list event) (w : World) : orderly w (run es w).
Proof.
  revert w. induction es as [|e es IH]; intros w; cbn [run].
  - apply orderly_Ok, follows_refl.
  - apply orderly_bind; [apply orderly_react|apply IH].
Qed.

Lemma boot_conn (chan nick auto pass : string) (count t0 : Z) :
  conn (bot (boot chan nick auto count pass t0))
  = [(t0, Write ("PASS " +:+ pass +:+ CRLF));
     (t0, Write ("NICK " +:+ "testbot" +:+ CRLF));
     (t0, Write ("JOIN " +:+ "#ajs94" +:+ CRLF))].
Proof. unfold boot, configure. now destruct (String.eqb chan ""). Qed.

Lemma boot_paced (chan nick auto pass : string) (count t0 : Z) :
  0 <= t0 -> paced (boot chan nick auto count pass t0).
Proof.
  intros Ht. unfold paced. rewrite boot_conn.
  unfold boot, configure. destruct (String.eqb chan ""); cbn; repeat split; try lia;
    constructor.
Qed.

Lemma boot_maxMsgTime (chan nick auto pass : string) (count t0 : Z) :
  maxMsgTime (bot (boot chan nick auto count pass t0)) = 3.
Proof. unfold boot, configure. now destruct (String.eqb chan ""). Qed.

(** X11. Whatever lines, console texts, timer rounds and delays come, taken
    one at a time, the chat lines that the program has put on the connection
    are at least three seconds apart, each from the one before it, as long as
    the clock is short of the end of [int64]; [lastMsg] is never ahead of the
    clock. Replies to pings are written directly and are not counted. *)
Theorem chat_lines_are_paced
    (chan nick auto pass : string) (count t0 : Z) (es : list event) (w : World) :
  0 <= t0 ->
  final (run es (boot chan nick auto count pass t0)) = Some w ->
  now w + 3 < 2 ^ 63 ->
  spaced 3 (chat_times (conn (bot w)))
  /\ 0 <= lastMsg (bot w) <= now w
  /\ t0 <= now w.
Proof.
  intros Ht Hrun Hbound.
  destruct (orderly_run es _ w Hrun) as (Hset & Hnow & _ & Hpaced).
  rewrite boot_maxMsgTime in Hpaced.
  destruct (Hpaced Hbound (boot_paced chan nick auto pass count t0 Ht))
    as (_ & Hl & Hsp & _).
  rewrite (settings_maxMsgTime _ _ Hset), boot_maxMsgTime in Hsp.
  split; [exact Hsp|]. split; [exact Hl|exact Hnow].
Qed.

Lemma chat_lines_are_paced_witness :
  exists w,
    final (run [Line (sender "bob" +:+ ".tmi.twitch.tv JOIN #ajs94");
                Console ("hello" +:+ LF); Line "PING :tmi.twitch.tv"; Timer]
               (boot_default 100)) = Some w
    /\ spaced 3 (chat_times (conn (bot w))).
Proof.
  eexists. split; [vm_compute; reflexivity|].
  match goal with
  | |- spaced 3 (chat_times (conn (bot ?w))) =>
      apply (chat_lines_are_paced "ajs94" "testbot" "This is an automessage message"
               "oauth:token" 1 100
               [Line (sender "bob" +:+ ".tmi.twitch.tv JOIN #ajs94");
                Console ("hello" +:+ LF); Line "PING :tmi.twitch.tv"; Timer] w)
  end.
  - lia.
  - vm_compute. reflexivity.
  - vm_compute. reflexivity.
Defined.



(** ** The automatic message *)

Lemma minutes_to_seconds (count : Z) :
  0 <= count <= 153722867 ->
  mul64 count 60000000000 / 1000000000 = 60 * count.
Proof.
  intros H. unfold mul64, wrap64.
  rewrite Z.mod_small by lia.
  replace (count * 60000000000 + 2 ^ 63 - 2 ^ 63) with (60 * count * 1000000000) by lia.
  apply Z.div_mul. lia.
Qed.

(** X13. With a message that is not empty and a count of minutes between 0
    and 153722867 (beyond which the duration in nanoseconds overflows),
    [rounds] turns of the loop of [Automessage] put exactly [rounds] copies
    of the message on the connection and nothing else, the first not before
    the count of minutes has passed, each of the others not before that many
    minutes after the one before it, and all of them at least [maxMsgTime]
    apart and after the last message sent before. *)
Theorem Automessage_rounds (rounds : nat) (w : World) :
  automsg (bot w) <> "" ->
  0 <= autoMsgCount (bot w) <= 153722867 ->
  0 <= maxMsgTime (bot w) ->
  - 2 ^ 63 <= lastMsg (bot w) + maxMsgTime (bot w) ->
  Z.max (now w) (lastMsg (bot w) + maxMsgTime (bot w))
    + Z.of_nat rounds * (60 * autoMsgCount (bot w) + maxMsgTime (bot w) + 5) < 2 ^ 63 ->
  exists w1 sent,
    Automessage rounds w = Ok w1
    /\ conn (bot w1) = conn (bot w) ++ sent
    /\ sent.*2 = replicate rounds (privmsg (bot w) (automsg (bot w)))
    /\ spaced (60 * autoMsgCount (bot w)) (now w :: sent.*1)
    /\ spaced (maxMsgTime (bot w)) (lastMsg (bot w) :: sent.*1).
Proof.
  revert w. induction rounds as [|n IH]; intros w Hmsg Hcount HM Hlow Hhigh.
  - exists w, []. cbn. rewrite app_nil_r. repeat split.
  - rewrite Nat2Z.inj_succ in Hhigh.
    set (K := 60 * autoMsgCount (bot w) + maxMsgTime (bot w) + 5) in *.
    assert (Hpos : 0 <= Z.of_nat n * K) by (apply Z.mul_nonneg_nonneg; lia).
    cbn [Automessage]. unfold automessageStep.
    rewrite (minutes_to_seconds _ Hcount).
    set (w0 := Sleep (60 * autoMsgCount (bot w)) w).
    assert (Hn0 : now w0 = now w + 60 * autoMsgCount (bot w)) by (cbn; lia).
    destruct (Message_step (automsg (bot w)) w0 Hmsg)
      as (Hsend & Hnow & Hcool & Hlate); [cbn; lia|].
    change (bot w0) with (bot w) in *.
    set (t := due w0) in *.
    set (w1 := transmit (automsg (bot w)) (at_time t w0)) in *.
    destruct (IH w1) as (w2 & sent & Hrun & Hconn & Hpay & Hsp1 & Hsp2);
      try assumption.
    { change (- 2 ^ 63 <= t + maxMsgTime (bot w)). lia. }
    { change (Z.max t (t + maxMsgTime (bot w)) + Z.of_nat n * K < 2 ^ 63). lia. }
    exists w2, ((t, privmsg (bot w) (automsg (bot w))) :: sent).
    rewrite Hsend. cbn [mbind outcome_bind].
    split; [exact Hrun|].
    split; [rewrite Hconn; subst w1; cbn; now rewrite <- app_assoc|].
    split; [cbn [fmap list_fmap snd replicate]; f_equal; exact Hpay|].
    split.
    + change (now w + 60 * autoMsgCount (bot w) <= t
              /\ spaced (60 * autoMsgCount (bot w)) (t :: sent.*1)).
      split; [lia|exact Hsp1].
    + change (lastMsg (bot w) + maxMsgTime (bot w) <= t
              /\ spaced (maxMsgTime (bot w)) (t :: sent.*1)).
      split; [lia|exact Hsp2].
Qed.

Lemma Automessage_rounds_witness :
  exists w1 sent,
    Automessage 3 (boot_default 100) = Ok w1
    /\ conn (bot w1) = conn (bot (boot_default 100)) ++ sent
    /\ sent.*2 = replicate 3 (privmsg (bot (boot_default 100))
                                (automsg (bot (boot_default 100))))
    /\ spaced (60 * autoMsgCount (bot (boot_default 100)))
              (now (boot_default 100) :: sent.*1)
    /\ spaced (maxMsgTime (bot (boot_default 100)))
              (lastMsg (bot (boot_default 100)) :: sent.*1).
Proof.
  apply (Automessage_rounds 3 (boot_default 100)).
  - discriminate.
  - vm_compute. split; discriminate.
  - vm_compute. discriminate.
  - vm_compute. discriminate.
  - vm_compute. reflexivity.
Defined.

(** Past the bound the duration wraps around and the round does not
    sleep. *)
Example Automessage_overflow :
  mul64 153722868 60000000000 / 1000000000 < 0.
Proof. reflexivity. Qed.

(** ** Calls in flight: every message once *)

Section ExactlyOnce.
Import Goroutines.

Lemma lines_of_insert (cs : list pc) (msgs : list string) (g : nat) (p p1 : pc) (m : string) :
  cs !! g = Some p -> msgs !! g = Some m ->
  exists pre post,
    lines_of cs msgs = pre ++ delivered p m ++ post
    /\ lines_of (<[g := p1]> cs) msgs = pre ++ delivered p1 m ++ post.
Proof.
  revert g msgs. induction cs as [|c cs IH]; intros g msgs Hc Hm; [discriminate|].
  destruct msgs as [|x msgs]; [destruct g; discriminate|].
  destruct g as [|g].
  - injection Hc as ->. injection Hm as ->.
    exists [], (lines_of cs msgs). split; reflexivity.
  - destruct (IH g msgs Hc Hm) as (pre & post & H1 & H2).
    exists (delivered c x ++ pre), post.
    change (lines_of (c :: cs) (x :: msgs)) with (delivered c x ++ lines_of cs msgs).
    change (lines_of (<[S g := p1]> (c :: cs)) (x :: msgs))
      with (delivered c x ++ lines_of (<[g := p1]> cs) msgs).
    rewrite H1, H2, <- !app_assoc. split; reflexivity.
Qed.

Lemma accounted_same (w0 : World) (cs : list pc) (msgs : list string) (g : nat)
    (p p1 : pc) (m : string) (w w1 : World) :
  accounted w0 (mkSystem w cs) msgs ->
  cs !! g = Some p -> msgs !! g = Some m ->
  agrees p1 m -> delivered p1 m = delivered p m ->
  settings (bot w1) = settings (bot w) -> conn (bot w1) = conn (bot w) ->
  accounted w0 (mkSystem w1 (<[g := p1]> cs)) msgs.
Proof.
  unfold accounted; cbn [world callers].
  intros (Hset & Hagree & added & Hconn & Hperm) Hc Hm Hp1 Hd Hs1 Hc1.
  split; [congruence|]. split.
  - rewrite <- (list_insert_id msgs g m Hm). now apply Forall2_insert.
  - exists added. split; [congruence|].
    destruct (lines_of_insert cs msgs g p p1 m Hc Hm) as (pre & post & H1 & H2).
    now rewrite H2, Hd, <- H1.
Qed.

Lemma accounted_exec (w0 : World) (s : system) (msgs : list string) (mv : move) :
  accounted w0 s msgs -> accounted w0 (exec s mv) (msgs ++ submitted [mv]).
Proof.
  intros Hacc. destruct s as [w cs]. destruct mv as [m|g|d]; cbn [exec world callers submitted omap].
  - revert Hacc. unfold accounted; cbn [world callers].
    intros (Hset & Hagree & added & Hconn & Hperm).
    split; [exact Hset|]. split.
    + apply Forall2_app; [exact Hagree|]. repeat constructor.
    + exists added. split; [exact Hconn|].
      unfold lines_of in *. rewrite zip_with_app by (eapply Forall2_length; eassumption).
      rewrite concat_app. cbn. now rewrite !app_nil_r.
  - rewrite app_nil_r. destruct (cs !! g) as [p|] eqn:Hc; [|exact Hacc].
    pose proof Hacc as Hacc1. revert Hacc1. unfold accounted at 1; cbn [world callers].
    intros (Hset & Hagree & added & Hconn & Hperm).
    destruct (Forall2_lookup_l _ _ _ _ _ Hagree Hc) as (m & Hm & Hpm).
    destruct p as [m1|m1| |m1 wake|]; cbn [advance]; cbn [agrees] in Hpm.
    + subst m1. destruct (String.eqb_spec m "") as [->|Hne].
      * eapply accounted_same; eauto; reflexivity.
      * destruct (cooled w); eapply accounted_same; eauto; cbn; try reflexivity.
        now split.
    + destruct Hpm as [-> Hne]. unfold accounted; cbn [world callers].
      split; [cbn; exact Hset|]. split.
      * rewrite <- (list_insert_id msgs g m Hm). now apply Forall2_insert.
      * exists (added ++ [(now w, privmsg (bot w) m)]). split.
        { cbn. rewrite Hconn. now rewrite <- app_assoc. }
        destruct (lines_of_insert cs msgs g (Sending m) Stamping m Hc Hm)
          as (pre & post & H1 & H2).
        rewrite H2. rewrite H1 in Hperm. cbn [delivered app] in *.
        rewrite fmap_app, Hperm. cbn [fmap list_fmap snd].
        rewrite (settings_privmsg _ _ m Hset).
        rewrite !map_app. cbn [map]. rewrite <- app_assoc.
        apply Permutation_app_head. symmetry. apply Permutation_cons_append.
    + eapply accounted_same; eauto; cbn; try reflexivity.
      apply String.eqb_neq in Hpm. now rewrite Hpm.
    + subst m1. destruct (wake <=? now w)%Z; eapply accounted_same; eauto; reflexivity.
    + eapply accounted_same; eauto; reflexivity.
  - rewrite app_nil_r. revert Hacc. unfold accounted; cbn [world callers].
    intros (Hset & Hagree & added & Hconn & Hperm).
    split; [exact Hset|]. split; [exact Hagree|].
    exists added. split; [exact Hconn|exact Hperm].
Qed.

Lemma submitted_app (l1 l2 : list move) :
  submitted (l1 ++ l2) = submitted l1 ++ submitted l2.
Proof. apply omap_app. Qed.

Lemma accounted_execs (w0 : World) (sched : list move) (s : system) (msgs : list string) :
  accounted w0 s msgs -> accounted w0 (execs sched s) (msgs ++ submitted sched).
Proof.
  revert s msgs. induction sched as [|mv sched IH]; intros s msgs Hacc.
  - cbn. now rewrite app_nil_r.
  - change (mv :: sched) with ([mv] ++ sched).
    rewrite submitted_app, app_assoc. apply IH. now apply accounted_exec.
Qed.

Lemma lines_of_Returned (cs : list pc) (msgs : list string) :
  Forall (fun p => p = Returned) cs -> length cs = length msgs ->
  lines_of cs msgs = List.filter (fun m => negb (String.eqb m "")) msgs.
Proof.
  revert msgs. induction cs as [|c cs IH]; intros msgs Hall Hlen;
    destruct msgs as [|m msgs]; try discriminate; [reflexivity|].
  apply Forall_cons in Hall as [-> Hall]. injection Hlen as Hlen.
  unfold lines_of in *. cbn. rewrite (IH msgs Hall Hlen).
  now destruct (String.eqb m "").
Qed.

End ExactlyOnce.

(** X14. Under every schedule of calls of [Message], statements and delays,
    once all the calls have returned the connection has gained, after what
    was on it, exactly one line for every submitted message that is not
    empty and nothing else: no message is lost and none is sent twice, though
    the order may differ from that of submission. *)
Theorem every_message_once (w : World) (sched : list Goroutines.move) :
  Forall (fun p => p = Goroutines.Returned)
         (Goroutines.callers (Goroutines.execs sched (Goroutines.start w))) ->
  exists added,
    conn (bot (Goroutines.world (Goroutines.execs sched (Goroutines.start w))))
    = conn (bot w) ++ added
    /\ added.*2 ≡ₚ map (privmsg (bot w))
                      (List.filter (fun m => negb (String.eqb m ""))
                                   (Goroutines.submitted sched)).
Proof.
  intros Hall.
  assert (Hstart : accounted w (Goroutines.start w) []).
  { split; [reflexivity|]. split; [constructor|].
    exists []. cbn. now rewrite app_nil_r. }
  destruct (accounted_execs w sched _ _ Hstart) as (_ & Hagree & added & Hconn & Hperm).
  cbn [app] in *. exists added. split; [exact Hconn|].
  rewrite Hperm, lines_of_Returned; [reflexivity|exact Hall|].
  eapply Forall2_length; eassumption.
Qed.

Lemma every_message_once_witness :
  exists added,
    conn (bot (Goroutines.world
                 (Goroutines.execs Goroutines.overtaking
                    (Goroutines.start (boot_default 100)))))
    = conn (bot (boot_default 100)) ++ added
    /\ added.*2 ≡ₚ map (privmsg (bot (boot_default 100)))
                      (List.filter (fun m => negb (String.eqb m ""))
                                   (Goroutines.submitted Goroutines.overtaking)).
Proof.
  apply (every_message_once (boot_default 100) Goroutines.overtaking).
  vm_compute. repeat constructor.
Defined.
